(** * S68k: the TypeScript binding over the WebAssembly core

    The repository's TypeScript module wraps the classes exported by the
    WebAssembly package [./pkg/s68k] (RawS68k, RawInterpreter, RawCpu, ...).
    The package itself is foreign code: here it is an interface (type
    classes below), and every wrapper method is written once, over any
    implementation of that interface.

    Modelling conventions.
    - A call that creates or mutates an object of the core is a computation
      in a monad [M]; getters of objects that the core hands out as
      snapshots (a CPU snapshot, a register, a semantic error, the error
      list) are functions.
    - JavaScript numbers that cross the boundary are integers ([Z], or
      [nat] for a length or an index).
    - An optional or defaulted parameter is an [option]; [None] is the
      omitted ([undefined]) argument.
    - Core calls are followed on their return path: the wrapper has no
      [try], [catch] or [throw].
    - [async]/[await] is sequencing in [M].
    - An [InterruptResult] is an object, so [if (result)] tests whether the
      handler returned one.

    The accessors of [Interpreter] that only delegate and that no property
    below involves ([getPc], [getSp], [getStatus], [readMemoryBytes], ...)
    are left out; [step], [run] and the register accessors show the
    pattern.

    Layout: the wrapper classes; the state monad and the log of calls used
    to observe any core; the machine of the specification ([SpecCore]) for
    what only the core decides; a small core to run on ([Toy]); the build
    script; the objects of the specification ([SpecObjects]); then the
    properties. *)

From Stdlib Require Import ZArith Lia Ascii.
From stdpp Require Import base decidable option list strings.
From Equations Require Import Equations.

Local Open Scope Z_scope.

(** ** Enumerations *)

(** [export enum RegisterType { Data, Address }]: a numeric enum, so a value
    of this type is a number; [Data] is 0 and [Address] is 1. *)
Module RegisterType.
Definition t := Z.
Definition Data : t := 0.
Definition Address : t := 1.
End RegisterType.

(** Modelled from the spec: the enum [InterpreterStatus] of the package (its
    declaration is not part of the TypeScript source). The wrapper names
    only the member [InterpreterStatus.Interrupt]. *)
Module InterpreterStatus.
Inductive t :=
  | Running
  | Interrupt
  | Terminated
  | TerminatedByFault.
End InterpreterStatus.

Global Instance InterpreterStatus_eq_dec : EqDecision InterpreterStatus.t.
Proof. solve_decision. Defined.

(** Modelled from the spec: the enum [Size] of the package (byte, word,
    long). The wrapper names only the member [Size.Long]. *)
Module Size.
Inductive t :=
  | Byte
  | Word
  | Long.
End Size.

Global Instance Size_eq_dec : EqDecision Size.t.
Proof. solve_decision. Defined.

(** Modelled from the spec: a register operand names one of the data or one
    of the address registers by its index. *)
Inductive RegisterOperand :=
  | DataRegister (index : nat)
  | AddressRegister (index : nat).

(** ** The package interface *)
Module Pkg.

(** [RawRegister] and [RawCpu]: snapshots with getters. *)
Class CpuPkg := {
  RawRegister : Type;
  RawCpu : Type;
  wasm_get_long : RawRegister → Z;
  wasm_get_word : RawRegister → Z;
  wasm_get_byte : RawRegister → Z;
  wasm_get_a_regs_value : RawCpu → list Z;
  wasm_get_d_regs_value : RawCpu → list Z;
  wasm_get_d_reg : RawCpu → Z → RawRegister;
  wasm_get_a_reg : RawCpu → Z → RawRegister;
}.

(** [RawSemanticError] and the list wrapper that [wasm_semantic_check]
    returns. *)
Class ErrorPkg := {
  RawSemanticError : Type;
  RawSemanticErrors : Type;
  wasm_get_message : RawSemanticError → string;
  wasm_get_line : RawSemanticError → Z;
  get_length : RawSemanticErrors → nat;
  get_error_at_index : RawSemanticErrors → nat → RawSemanticError;
}.

(** The types that travel with a [RawInterpreter]. *)
Class InterpreterTypes := {
  RawInterpreter : Type;
  Interrupt : Type;
  InterruptResult : Type;
  InstructionLine : Type;
}.

(** [Step] is the pair that [wasm_step] returns; the wrapper destructures it
    as [[_, status]]. *)
Definition Step {types : InterpreterTypes} : Type := InstructionLine * InterpreterStatus.t.

(** [RawInterpreter]: execution and the interrupt protocol. *)
Class ExecApi (M : Type → Type) {types : InterpreterTypes} := {
  wasm_step : RawInterpreter → M Step;
  wasm_run : RawInterpreter → M InterpreterStatus.t;
  wasm_answer_interrupt : RawInterpreter → InterruptResult → M unit;
  wasm_get_current_interrupt : RawInterpreter → M (option Interrupt);
}.

(** [RawInterpreter]: condition codes. *)
Class FlagsApi (M : Type → Type) {types : InterpreterTypes} := {
  wasm_get_flags_as_array : RawInterpreter → M (list Z);
  wasm_get_flags_as_number : RawInterpreter → M Z;
}.

(** [RawInterpreter]: width-qualified register access. *)
Class RegisterApi (M : Type → Type) {types : InterpreterTypes} := {
  wasm_get_register_value : RawInterpreter → RegisterOperand → Size.t → M Z;
  wasm_set_register_value : RawInterpreter → RegisterOperand → Z → Size.t → M unit;
}.

(** The types that travel with a [RawS68k]. *)
Class S68kTypes := {
  RawS68k : Type;
  RawCompiler : Type;
}.

(** [RawS68k]: analysis, compilation and interpreter construction;
    [new_RawS68k] is the constructor [new RawS68k(code)]. *)
Class S68kApi (M : Type → Type)
    {types : InterpreterTypes} {errs : ErrorPkg} {stypes : S68kTypes} := {
  new_RawS68k : string → M RawS68k;
  wasm_semantic_check : RawS68k → M RawSemanticErrors;
  wasm_compile : RawS68k → M RawCompiler;
  wasm_create_interpreter : RawS68k → RawCompiler → Z → M RawInterpreter;
}.

End Pkg.
Export Pkg.

(** ** class Register *)
Module Register.
Section methods.
Context {pkg : CpuPkg}.

Record Register := new { register : RawRegister }.

Definition getLong (this : Register) : Z := wasm_get_long (register this).
Definition getWord (this : Register) : Z := wasm_get_word (register this).
Definition getByte (this : Register) : Z := wasm_get_byte (register this).
End methods.
End Register.

(** ** class Cpu *)
Module Cpu.
Section methods.
Context {pkg : CpuPkg}.

Record Cpu := new { cpu : RawCpu }.

Definition getRegistersValues (this : Cpu) : list Z :=
  let aReg := wasm_get_a_regs_value (cpu this) in
  let dReg := wasm_get_d_regs_value (cpu this) in
  dReg ++ aReg.

Definition getRegister (this : Cpu) (register : Z) (type : RegisterType.t)
  : Register.Register :=
  if decide (type = RegisterType.Data)
  then Register.new (wasm_get_d_reg (cpu this) register)
  else Register.new (wasm_get_a_reg (cpu this) register).

Definition getRegisterValue (this : Cpu) (register : Z) (type : RegisterType.t) : Z :=
  Register.getLong (getRegister this register type).
End methods.
End Cpu.

(** ** class SemanticError *)
Module SemanticError.
Section methods.
Context {errs : ErrorPkg}.

Record SemanticError := new { error : RawSemanticError }.

Definition getMessage (this : SemanticError) : string :=
  wasm_get_message (error this).
Definition getLineIndex (this : SemanticError) : Z :=
  wasm_get_line (error this).
End methods.
End SemanticError.

(** ** class CompiledProgram *)
Module CompiledProgram.
Section methods.
Context {stypes : S68kTypes}.

Record CompiledProgram := new { program : RawCompiler }.

Definition getCompiledProgram (this : CompiledProgram) : RawCompiler :=
  program this.
End methods.
End CompiledProgram.

(** ** class Interpreter *)
Module Interpreter.

Section object.
Context {types : InterpreterTypes}.

Record Interpreter := new { interpreter : RawInterpreter }.
End object.

Section exec.
Context {M : Type → Type} {ret : MRet M} {bind : MBind M}
  {types : InterpreterTypes} {api : ExecApi M}.

(** [(interrupt: Interrupt) => Promise<InterruptResult> | void]; the
    handler is applied to [this.getCurrentInterrupt()!], which is
    [null] when the core reports no interrupt. *)
Definition InterruptHandler : Type := option Interrupt → M (option InterruptResult).

Definition answerInterrupt (this : Interpreter) (interruptResult : InterruptResult)
  : M unit :=
  wasm_answer_interrupt (interpreter this) interruptResult.

Definition step (this : Interpreter) : M Step :=
  wasm_step (interpreter this).

Definition getCurrentInterrupt (this : Interpreter) : M (option Interrupt) :=
  wasm_get_current_interrupt (interpreter this).

Definition stepWithInterruptHandler (this : Interpreter) (onInterrupt : InterruptHandler)
  : M Step :=
  step ← wasm_step (interpreter this);
  let '(_, status) := step in
  _ ← (if decide (status = InterpreterStatus.Interrupt)
       then
         current ← getCurrentInterrupt this;
         result ← onInterrupt current;
         match result with
         | Some result => answerInterrupt this result
         | None => mret tt
         end
       else mret tt);
  mret step.

Definition run (this : Interpreter) : M InterpreterStatus.t :=
  wasm_run (interpreter this).

Definition runWithInterruptHandler (this : Interpreter) (onInterrupt : InterruptHandler)
  : M InterpreterStatus.t :=
  status ← wasm_run (interpreter this);
  _ ← (if decide (status = InterpreterStatus.Interrupt)
       then
         current ← getCurrentInterrupt this;
         result ← onInterrupt current;
         match result with
         | Some result => answerInterrupt this result
         | None => mret tt
         end
       else mret tt);
  mret status.
End exec.

Section flags.
Context {M : Type → Type} {ret : MRet M} {bind : MBind M}
  {types : InterpreterTypes} {api : FlagsApi M}.

Definition getFlagsAsArray (this : Interpreter) : M (list bool) :=
  flags ← wasm_get_flags_as_array (interpreter this);
  mret (map (λ v, bool_decide (v = 1)) flags).

Definition getFlagsAsBitfield (this : Interpreter) : M Z :=
  wasm_get_flags_as_number (interpreter this).
End flags.

Section registers.
Context {M : Type → Type} {types : InterpreterTypes} {api : RegisterApi M}.

Definition getRegisterValue (this : Interpreter) (register : RegisterOperand)
    (size : option Size.t) : M Z :=
  let size := default Size.Long size in
  wasm_get_register_value (interpreter this) register size.

Definition setRegisterValue (this : Interpreter) (register : RegisterOperand)
    (value : Z) (size : option Size.t) : M unit :=
  let size := default Size.Long size in
  wasm_set_register_value (interpreter this) register value size.
End registers.

End Interpreter.

(** ** class S68k *)
Module S68k.
Section methods.
Context {M : Type → Type} {ret : MRet M} {bind : MBind M}
  {types : InterpreterTypes} {errs : ErrorPkg} {stypes : S68kTypes}
  {api : S68kApi M}.

Record S68k := mk { _s68k : RawS68k }.

(** [type CompilationResult =
      { ok: false, errors } | { ok: true, interpreter }] *)
Inductive CompilationResult :=
  | ok_false (errors : list SemanticError.SemanticError)
  | ok_true (interpreter : Interpreter.Interpreter).

Definition constructor (code : string) : M S68k :=
  raw ← new_RawS68k code;
  mret (mk raw).

(** The [for] loop of [semanticCheck], entered with the counter [i] and
    the array [errors] built so far. *)
Equations? semanticCheck_loop (errorWrapper : RawSemanticErrors) (i : nat)
    (errors : list SemanticError.SemanticError)
  : list SemanticError.SemanticError
  by wf (get_length errorWrapper - i)%nat lt :=
  semanticCheck_loop errorWrapper i errors
    with decide (i < get_length errorWrapper)%nat := {
    | left _ =>
        semanticCheck_loop errorWrapper (S i)
          (errors ++ [SemanticError.new (get_error_at_index errorWrapper i)]);
    | right _ => errors }.
Proof. lia. Qed.

Definition semanticCheck (this : S68k) : M (list SemanticError.SemanticError) :=
  errorWrapper ← wasm_semantic_check (_s68k this);
  mret (semanticCheck_loop errorWrapper 0 []).

Definition compile (this : S68k) : M CompiledProgram.CompiledProgram :=
  raw ← wasm_compile (_s68k this);
  mret (CompiledProgram.new raw).

Definition createInterpreter (this : S68k) (memorySize : option Z)
    (program : option CompiledProgram.CompiledProgram)
  : M Interpreter.Interpreter :=
  let memorySize := default 0xFFFFFF memorySize in
  match program with
  | Some program =>
      raw ← wasm_create_interpreter (_s68k this)
              (CompiledProgram.getCompiledProgram program) memorySize;
      mret (Interpreter.new raw)
  | None =>
      compiled ← compile this;
      raw ← wasm_create_interpreter (_s68k this)
              (CompiledProgram.getCompiledProgram compiled) memorySize;
      mret (Interpreter.new raw)
  end.

(** [static compile(code, memorySize)] *)
Definition static_compile (code : string) (memorySize : Z) : M CompilationResult :=
  s68k ← constructor code;
  errors ← semanticCheck s68k;
  if (0 <? length errors)%nat
  then mret (ok_false errors)
  else
    interpreter ← createInterpreter s68k (Some memorySize) None;
    mret (ok_true interpreter).

(** [static semanticCheck(code)] *)
Definition static_semanticCheck (code : string)
  : M (list SemanticError.SemanticError) :=
  s68k ← constructor code;
  semanticCheck s68k.
End methods.
End S68k.

(** ** A core with state: the state monad

    The core keeps its objects in a world [W] (the WebAssembly memory and
    whatever the host shares with it); a call maps the world before to a
    result and the world after. *)
Definition State (W A : Type) : Type := W → A * W.

Global Instance State_ret {W} : MRet (State W) := λ A a w, (a, w).
Global Instance State_bind {W} : MBind (State W) :=
  λ A B f m w, let '(a, w') := m w in f a w'.

(** [observe e m] performs [m] and appends [e] to the log of calls made
    so far. *)
Definition observe {W E A : Type} (e : E) (m : State W A) : State (W * list E) A :=
  λ '(w, log), let '(a, w') := m w in (a, (w', log ++ [e])).

(** Calls on a [RawInterpreter], and invocations of the host's interrupt
    handler. *)
Section exec_calls.
Context {W : Type} {types : InterpreterTypes}.

Inductive exec_call :=
  | call_wasm_step (raw : RawInterpreter)
  | call_wasm_run (raw : RawInterpreter)
  | call_wasm_answer_interrupt (raw : RawInterpreter) (result : InterruptResult)
  | call_wasm_get_current_interrupt (raw : RawInterpreter)
  | call_onInterrupt (interrupt : option Interrupt).

(** Any core, with every call recorded. *)
Definition observed_exec (core : ExecApi (State W))
  : ExecApi (State (W * list exec_call)) := {|
  wasm_step raw := observe (call_wasm_step raw) (wasm_step raw);
  wasm_run raw := observe (call_wasm_run raw) (wasm_run raw);
  wasm_answer_interrupt raw result :=
    observe (call_wasm_answer_interrupt raw result) (wasm_answer_interrupt raw result);
  wasm_get_current_interrupt raw :=
    observe (call_wasm_get_current_interrupt raw) (wasm_get_current_interrupt raw);
|}.

(** Any host handler, with every invocation recorded. *)
Definition observed_handler
    (handler : option Interrupt → State W (option InterruptResult))
  : option Interrupt → State (W * list exec_call) (option InterruptResult) :=
  λ interrupt, observe (call_onInterrupt interrupt) (handler interrupt).
End exec_calls.

(** Calls on a [RawS68k]. *)
Section s68k_calls.
Context {W : Type} {types : InterpreterTypes} {errs : ErrorPkg} {stypes : S68kTypes}.

Inductive s68k_call :=
  | call_new_RawS68k (code : string)
  | call_wasm_semantic_check (raw : RawS68k)
  | call_wasm_compile (raw : RawS68k)
  | call_wasm_create_interpreter (raw : RawS68k) (program : RawCompiler) (memorySize : Z).

Definition observed_s68k (core : S68kApi (State W))
  : S68kApi (State (W * list s68k_call)) := {|
  new_RawS68k code := observe (call_new_RawS68k code) (new_RawS68k code);
  wasm_semantic_check raw :=
    observe (call_wasm_semantic_check raw) (wasm_semantic_check raw);
  wasm_compile raw := observe (call_wasm_compile raw) (wasm_compile raw);
  wasm_create_interpreter raw program memorySize :=
    observe (call_wasm_create_interpreter raw program memorySize)
            (wasm_create_interpreter raw program memorySize);
|}.
End s68k_calls.

(** ** The core's machine, from the specification

    The execution engine and the register file live in the WebAssembly
    package. What the specification says of them is modelled here; what it
    leaves open (the opcode table, what answering a trap writes) is a
    parameter. *)
Module SpecCore.

(** Modelled from the spec: the interpreter's state (registers, flags,
    memory, program counter, status, pending interrupt). A trap kind and the
    host's answer are numbers; an instruction line is its index. *)
Record Machine := {
  d_regs : list Z;
  a_regs : list Z;
  flags : list bool;
  memory : list Z;
  pc : Z;
  status : InterpreterStatus.t;
  pending : option nat;
}.

Definition spec_types : InterpreterTypes := {|
  RawInterpreter := unit;
  Interrupt := nat;
  InterruptResult := Z;
  InstructionLine := Z;
|}.

(** A call returns a value and leaves a machine, or is rejected as a caller
    error (the machine as it was), or does not return. *)
Inductive outcome (A : Type) :=
  | Returned (a : A) (m : Machine)
  | Rejected (m : Machine)
  | Diverged.
Global Arguments Returned {A} a m.
Global Arguments Rejected {A} m.
Global Arguments Diverged {A}.

Definition Exec (A : Type) : Type := Machine → outcome A.

Global Instance Exec_ret : MRet Exec := λ A a m, Returned a m.
Global Instance Exec_bind : MBind Exec :=
  λ A B f c m,
    match c m with
    | Returned a m' => f a m'
    | Rejected m' => Rejected m'
    | Diverged => Diverged
    end.

Definition with_status (s : InterpreterStatus.t) (m : Machine) : Machine :=
  {| d_regs := d_regs m; a_regs := a_regs m; flags := flags m; memory := memory m;
     pc := pc m; status := s; pending := pending m |}.

Definition with_pending (p : option nat) (m : Machine) : Machine :=
  {| d_regs := d_regs m; a_regs := a_regs m; flags := flags m; memory := memory m;
     pc := pc m; status := status m; pending := p |}.

Definition with_d_regs (regs : list Z) (m : Machine) : Machine :=
  {| d_regs := regs; a_regs := a_regs m; flags := flags m; memory := memory m;
     pc := pc m; status := status m; pending := pending m |}.

Definition with_a_regs (regs : list Z) (m : Machine) : Machine :=
  {| d_regs := d_regs m; a_regs := regs; flags := flags m; memory := memory m;
     pc := pc m; status := status m; pending := pending m |}.

Section execution.
(** What executing the instruction at the program counter does to a
    running machine, status included (the opcode table). *)
Variable execute : Machine → Machine.
(** What answering the pending trap writes. *)
Variable complete : Z → Machine → Machine.
(** How many instructions [run] may execute before it counts as not
    returning. *)
Variable fuel : nat.

(** Modelled from the spec: [step()] executes exactly one instruction
    when the status is Running; on a terminated machine it is a no-op
    returning the same status; while an interrupt is unanswered it is
    rejected. The core's [wasm_step] is not part of the TypeScript
    source. *)
Definition wasm_step (_ : unit) : Exec (Z * InterpreterStatus.t) :=
  λ m,
    match status m with
    | InterpreterStatus.Running =>
        let m' := execute m in Returned (pc m, status m') m'
    | InterpreterStatus.Interrupt => Rejected m
    | InterpreterStatus.Terminated
    | InterpreterStatus.TerminatedByFault => Returned (pc m, status m) m
    end.

(** Modelled from the spec: [run()] repeatedly steps until the status is
    no longer Running and returns that status. *)
Fixpoint run_loop (n : nat) (m : Machine) : outcome InterpreterStatus.t :=
  if decide (status m = InterpreterStatus.Running) then
    match n with
    | O => Diverged
    | S n =>
        match wasm_step tt m with
        | Returned _ m' => run_loop n m'
        | Rejected m' => Rejected m'
        | Diverged => Diverged
        end
    end
  else Returned (status m) m.

(** Modelled from the spec: [run()], rejected like [step()] while an
    interrupt is unanswered. The core's [wasm_run] is not part of the
    TypeScript source. *)
Definition wasm_run (_ : unit) : Exec InterpreterStatus.t :=
  λ m,
    if decide (status m = InterpreterStatus.Interrupt) then Rejected m
    else run_loop fuel m.

(** Modelled from the spec: [answerInterrupt(result)] is valid only while
    an interrupt is pending; it completes the trap and resumes to
    Running. *)
Definition wasm_answer_interrupt (_ : unit) (result : Z) : Exec unit :=
  λ m,
    match status m with
    | InterpreterStatus.Interrupt =>
        Returned tt
          (with_pending None (with_status InterpreterStatus.Running (complete result m)))
    | _ => Rejected m
    end.

(** Modelled from the spec: [getCurrentInterrupt()] is the pending
    interrupt, or none when the status is not Interrupt. *)
Definition wasm_get_current_interrupt (_ : unit) : Exec (option nat) :=
  λ m,
    match status m with
    | InterpreterStatus.Interrupt => Returned (pending m) m
    | _ => Returned None m
    end.

Definition spec_exec : @ExecApi Exec spec_types :=
  @Build_ExecApi Exec spec_types
    wasm_step wasm_run wasm_answer_interrupt wasm_get_current_interrupt.
End execution.

(** *** The register file *)

(** Modelled from the spec: byte is the low 8 bits, word the low 16 bits,
    long all 32 bits. *)
Definition size_bits (size : Size.t) : Z :=
  match size with
  | Size.Byte => 8
  | Size.Word => 16
  | Size.Long => 32
  end.

Definition size_mask (size : Size.t) : Z :=
  match size with
  | Size.Byte => 0xFF
  | Size.Word => 0xFFFF
  | Size.Long => 0xFFFFFFFF
  end.

(** Modelled from the spec: reading a width returns only the low bits,
    unsigned. *)
Definition read_sized (held : Z) (size : Size.t) : Z :=
  Z.land held (size_mask size).

(** Modelled from the spec: writing a width replaces the low bits and
    leaves the high-order bits of the register as they were. *)
Definition write_sized (held value : Z) (size : Size.t) : Z :=
  Z.lor (Z.ldiff held (size_mask size)) (Z.land value (size_mask size)).

Definition register_lookup (register : RegisterOperand) (m : Machine) : option Z :=
  match register with
  | DataRegister i => d_regs m !! i
  | AddressRegister i => a_regs m !! i
  end.

Definition register_store (register : RegisterOperand) (v : Z) (m : Machine) : Machine :=
  match register with
  | DataRegister i => with_d_regs (<[i:=v]> (d_regs m)) m
  | AddressRegister i => with_a_regs (<[i:=v]> (a_regs m)) m
  end.

(** Modelled from the spec: width-qualified register read; a register index
    out of range is a fault. The core's [wasm_get_register_value] is not
    part of the TypeScript source. *)
Definition wasm_get_register_value (_ : unit) (register : RegisterOperand)
    (size : Size.t) : Exec Z :=
  λ m,
    match register_lookup register m with
    | Some held => Returned (read_sized held size) m
    | None => Rejected m
    end.

(** Modelled from the spec: width-qualified register write. The core's
    [wasm_set_register_value] is not part of the TypeScript source. *)
Definition wasm_set_register_value (_ : unit) (register : RegisterOperand)
    (value : Z) (size : Size.t) : Exec unit :=
  λ m,
    match register_lookup register m with
    | Some held => Returned tt (register_store register (write_sized held value size) m)
    | None => Rejected m
    end.

Definition spec_registers : @RegisterApi Exec spec_types :=
  @Build_RegisterApi Exec spec_types wasm_get_register_value wasm_set_register_value.

End SpecCore.

(** ** Host-side vocabulary used by the statements *)

(** [n] sequential [step()] calls, as a host drives them. *)
Fixpoint step_times {M : Type → Type} {ret : MRet M} {bind : MBind M}
    {types : InterpreterTypes} {api : ExecApi M}
    (n : nat) (this : Interpreter.Interpreter) : M unit :=
  match n with
  | O => mret tt
  | S n => _ ← Interpreter.step this; step_times n this
  end.

(** [n] sequential [createInterpreter(memorySize, program)] calls with one
    compiled program. *)
Fixpoint createInterpreter_times {M : Type → Type} {ret : MRet M} {bind : MBind M}
    {types : InterpreterTypes} {errs : ErrorPkg} {stypes : S68kTypes} {api : S68kApi M}
    (n : nat) (this : S68k.S68k) (memorySize : option Z)
    (program : CompiledProgram.CompiledProgram) : M (list Interpreter.Interpreter) :=
  match n with
  | O => mret []
  | S n =>
      interpreter ← S68k.createInterpreter this memorySize (Some program);
      rest ← createInterpreter_times n this memorySize program;
      mret (interpreter :: rest)
  end.

(** What a host can read off a [SemanticError]. *)
Definition error_content {errs : ErrorPkg} (e : SemanticError.SemanticError)
  : string * Z :=
  (SemanticError.getMessage e, SemanticError.getLineIndex e).

(** What the core reports for a source analysed in world [w]: the message
    and line of each error, in index order. *)
Definition analysis_report {W : Type} {types : InterpreterTypes} {errs : ErrorPkg}
    {stypes : S68kTypes} (core : S68kApi (State W)) (code : string) (w : W)
  : list (string * Z) :=
  let '(raw, w1) := new_RawS68k code w in
  let '(errorWrapper, _) := wasm_semantic_check raw w1 in
  map (λ i, let e := get_error_at_index errorWrapper i in
            (wasm_get_message e, wasm_get_line e))
      (seq 0 (get_length errorWrapper)).

(** Modelled from the spec: the analyzer is a pure function of the source,
    with no shared state. Whatever the world, analysing one source reports
    errors of the same content, in the same order. The core's
    [wasm_semantic_check] is not part of the TypeScript source. *)
Definition pure_analysis {W : Type} {types : InterpreterTypes} {errs : ErrorPkg}
    {stypes : S68kTypes} (core : S68kApi (State W)) : Prop :=
  ∀ (code : string) (w w' : W),
    analysis_report core code w = analysis_report core code w'.

(** The calls that the guarded block shared by [stepWithInterruptHandler]
    and [runWithInterruptHandler] makes after the core call, and the world
    it leaves, from the status obtained and the world [w1] after the core
    call. *)
Definition mediation {W : Type} {types : InterpreterTypes} (core : ExecApi (State W))
    (handler : option Interrupt → State W (option InterruptResult))
    (raw : RawInterpreter) (status : InterpreterStatus.t) (w1 : W)
  : list exec_call * W :=
  if decide (status = InterpreterStatus.Interrupt) then
    let '(current, w2) := wasm_get_current_interrupt raw w1 in
    let '(answer, w3) := handler current w2 in
    match answer with
    | Some result =>
        let '(_, w4) := wasm_answer_interrupt raw result w3 in
        ([call_wasm_get_current_interrupt raw; call_onInterrupt current;
          call_wasm_answer_interrupt raw result], w4)
    | None => ([call_wasm_get_current_interrupt raw; call_onInterrupt current], w3)
    end
  else ([], w1).

Module SpecRun.
Import SpecCore.
Section run.
Variable execute : Machine → Machine.

(** The machine one accepted [step()] later. *)
Definition advance (m : Machine) : Machine :=
  if decide (status m = InterpreterStatus.Running) then execute m else m.

Fixpoint advance_times (n : nat) (m : Machine) : Machine :=
  match n with
  | O => m
  | S n => advance_times n (advance m)
  end.

(** No trap is met from [m] within [n] instructions: the status is never
    Interrupt on the way. *)
Fixpoint trap_free (n : nat) (m : Machine) : bool :=
  bool_decide (status m ≠ InterpreterStatus.Interrupt)
  && match n with
     | O => true
     | S n => trap_free n (advance m)
     end.
End run.
End SpecRun.

(** ** A small core to run the wrapper on *)
Module Toy.

Definition errs : ErrorPkg := {|
  RawSemanticError := string * Z;
  RawSemanticErrors := list (string * Z);
  wasm_get_message e := e.1;
  wasm_get_line e := e.2;
  get_length := length;
  get_error_at_index l i := nth i l (String.EmptyString, 0);
|}.

Definition types : InterpreterTypes := {|
  RawInterpreter := nat;
  Interrupt := string;
  InterruptResult := Z;
  InstructionLine := Z;
|}.

Definition stypes : S68kTypes := {|
  RawS68k := string;
  RawCompiler := string;
|}.

(** One instruction per character; only [n] is an instruction. *)
Fixpoint analyse (line : Z) (code : string) : list (string * Z) :=
  match code with
  | String.EmptyString => []
  | String.String c rest =>
      (if Ascii.eqb c "n"%char then [] else [("unknown instruction"%string, line)])
      ++ analyse (line + 1) rest
  end.

(** The world counts the interpreters created; a new interpreter gets the
    count as its handle. *)
Definition s68k : @S68kApi (State nat) types errs stypes :=
  @Build_S68kApi (State nat) types errs stypes
    (λ code w, (code, w))
    (λ raw w, (analyse 0 raw, w))
    (λ raw w, (raw, w))
    (λ raw program memorySize w, (w, S w)).

(** An analyzer with shared state: it reports an error on every call but
    the first. *)
Definition stale_s68k : @S68kApi (State nat) types errs stypes :=
  @Build_S68kApi (State nat) types errs stypes
    (λ code w, (code, w))
    (λ raw w, (if decide (w = 0%nat) then [] else [("stale"%string, 0)], S w))
    (λ raw w, (raw, w))
    (λ raw program memorySize w, (w, S w)).

(** The world counts the steps taken; the second step meets a trap, and
    answering adds 100. *)
Definition exec : @ExecApi (State nat) types :=
  @Build_ExecApi (State nat) types
    (λ raw w, ((Z.of_nat w, if decide (w = 1%nat) then InterpreterStatus.Interrupt
                            else InterpreterStatus.Running), S w))
    (λ raw w, (InterpreterStatus.Interrupt, 2%nat))
    (λ raw result w, (tt, (w + 100)%nat))
    (λ raw w, (Some "read"%string, w)).

Definition cpu : CpuPkg := {|
  RawRegister := Z;
  RawCpu := list Z * list Z;
  wasm_get_long r := r;
  wasm_get_word r := r `mod` 2 ^ 16;
  wasm_get_byte r := r `mod` 2 ^ 8;
  wasm_get_a_regs_value c := c.2;
  wasm_get_d_regs_value c := c.1;
  wasm_get_d_reg c i := nth (Z.to_nat i) c.1 0;
  wasm_get_a_reg c i := nth (Z.to_nat i) c.2 0;
|}.

Definition flags : @FlagsApi (State (list Z)) types :=
  @Build_FlagsApi (State (list Z)) types
    (λ raw w, (w, w))
    (λ raw w, (foldr (λ b acc, b + 2 * acc) 0 w, w)).

(** A machine whose program counts its data register 0 down to zero and
    halts. *)
Definition countdown (m : SpecCore.Machine) : SpecCore.Machine :=
  match SpecCore.d_regs m !! 0%nat with
  | Some v =>
      if decide (0 < v) then
        SpecCore.with_d_regs (<[0%nat := v - 1]> (SpecCore.d_regs m))
          {| SpecCore.d_regs := SpecCore.d_regs m; SpecCore.a_regs := SpecCore.a_regs m;
             SpecCore.flags := SpecCore.flags m; SpecCore.memory := SpecCore.memory m;
             SpecCore.pc := SpecCore.pc m + 2; SpecCore.status := SpecCore.status m;
             SpecCore.pending := SpecCore.pending m |}
      else SpecCore.with_status InterpreterStatus.Terminated m
  | None => SpecCore.with_status InterpreterStatus.TerminatedByFault m
  end.

Definition machine : SpecCore.Machine := {|
  SpecCore.d_regs := [3; 0x12345678; 0; 0; 0; 0; 0; 0];
  SpecCore.a_regs := [0; 0; 0; 0; 0; 0; 0; 0x1000];
  SpecCore.flags := [false; false; false; false; false];
  SpecCore.memory := [];
  SpecCore.pc := 0;
  SpecCore.status := InterpreterStatus.Running;
  SpecCore.pending := None;
|}.

End Toy.

(** A host that lets the handler decline and answers by hand once the
    step has returned:
    [const step = await i.stepWithInterruptHandler(h);
     if (step[1] == InterpreterStatus.Interrupt) i.answerInterrupt(result)]. *)
Definition step_then_answer {M : Type → Type} {ret : MRet M} {bind : MBind M}
    {types : InterpreterTypes} {api : ExecApi M}
    (this : Interpreter.Interpreter) (onInterrupt : Interpreter.InterruptHandler)
    (result : InterruptResult) : M Step :=
  step ← Interpreter.stepWithInterruptHandler this onInterrupt;
  _ ← (if decide (step.2 = InterpreterStatus.Interrupt)
       then Interpreter.answerInterrupt this result
       else mret tt);
  mret step.

(** The same around [runWithInterruptHandler]. *)
Definition run_then_answer {M : Type → Type} {ret : MRet M} {bind : MBind M}
    {types : InterpreterTypes} {api : ExecApi M}
    (this : Interpreter.Interpreter) (onInterrupt : Interpreter.InterruptHandler)
    (result : InterruptResult) : M InterpreterStatus.t :=
  status ← Interpreter.runWithInterruptHandler this onInterrupt;
  _ ← (if decide (status = InterpreterStatus.Interrupt)
       then Interpreter.answerInterrupt this result
       else mret tt);
  mret status.

(** ** build.js

    The build script calls [execSync] of [child_process] and [cp] and
    [unlink] of [fs/promises]. Each of them returns or throws; the script
    has no [try], so the first exception ends [init]. *)
Module Build.

Inductive outcome (E A : Type) :=
  | returned (a : A)
  | threw (e : E).
Global Arguments returned {E A} a.
Global Arguments threw {E A} e.

(** A call of Node: from the world before, an outcome and the world
    after. *)
Definition Node (W E A : Type) : Type := W → outcome E A * W.

Global Instance Node_ret {W E} : MRet (Node W E) := λ A a w, (returned a, w).
Global Instance Node_bind {W E} : MBind (Node W E) :=
  λ A B f m w,
    match m w with
    | (returned a, w') => f a w'
    | (threw e, w') => (threw e, w')
    end.

(** [execSync(command, {stdio})], [fs.cp(src, dest, {recursive})] and
    [fs.unlink(path)]. *)
Class NodeApi (M : Type → Type) := {
  execSync : string → string → M unit;
  cp : string → string → bool → M unit;
  unlink : string → M unit;
}.

Section script.
Context {M : Type → Type} {ret : MRet M} {bind : MBind M} {node : NodeApi M}.

Definition init : M unit :=
  _ ← execSync "tsc" "inherit";
  _ ← cp "./src/pkg" "./dist/pkg" true;
  _ ← unlink "./dist/pkg/package.json";
  _ ← unlink "./dist/pkg/README.md";
  _ ← unlink "./dist/pkg/.gitignore";
  mret tt.
End script.

(** The calls of Node, as a log records them. *)
Inductive node_call :=
  | call_execSync (command stdio : string)
  | call_cp (src dest : string) (recursive : bool)
  | call_unlink (path : string).

Section observed.
Context {W E : Type}.

(** [m], recorded as [c] whether it returns or throws. *)
Definition observe_node {A : Type} (c : node_call) (m : Node W E A)
  : Node (W * list node_call) E A :=
  λ '(w, log), let '(r, w') := m w in (r, (w', log ++ [c])).

Definition observed_node (node : NodeApi (Node W E))
  : NodeApi (Node (W * list node_call) E) := {|
  execSync command stdio :=
    observe_node (call_execSync command stdio) (execSync command stdio);
  cp src dest recursive := observe_node (call_cp src dest recursive) (cp src dest recursive);
  unlink path := observe_node (call_unlink path) (unlink path);
|}.

(** What a recorded call does. *)
Definition perform (node : NodeApi (Node W E)) (c : node_call) : Node W E unit :=
  match c with
  | call_execSync command stdio => execSync command stdio
  | call_cp src dest recursive => cp src dest recursive
  | call_unlink path => unlink path
  end.

(** The calls of a list made one after the other, up to the first that
    throws. *)
Fixpoint perform_all (node : NodeApi (Node W E)) (calls : list node_call)
  : Node W E unit :=
  match calls with
  | [] => mret tt
  | c :: calls => _ ← perform node c; perform_all node calls
  end.
End observed.

(** The five calls of [init], in source order. *)
Definition init_calls : list node_call :=
  [call_execSync "tsc" "inherit";
   call_cp "./src/pkg" "./dist/pkg" true;
   call_unlink "./dist/pkg/package.json";
   call_unlink "./dist/pkg/README.md";
   call_unlink "./dist/pkg/.gitignore"].

(** A small Node to run the script on: the world is the list of paths
    that exist under [./dist/pkg]; the compiler does nothing, the copy
    brings three files, and deleting a path that is not there throws. *)
Definition toy_node (copied : list string) : NodeApi (Node (list string) string) :=
  @Build_NodeApi (Node (list string) string)
    (λ command stdio w, (returned tt, w))
    (λ src dest recursive w, (returned tt, copied ++ w))
    (λ path w,
       if decide (path ∈ w)
       then (returned tt, filter (λ p, p ≠ path) w)
       else (threw "ENOENT"%string, w)).

End Build.

(** A second small error package: the core's list comes with a filler that
    [get_error_at_index] returns for an index out of range. *)
Module ToyPadded.

Definition errs : ErrorPkg := {|
  RawSemanticError := string * Z;
  RawSemanticErrors := list (string * Z) * (string * Z);
  wasm_get_message e := e.1;
  wasm_get_line e := e.2;
  get_length ew := length ew.1;
  get_error_at_index ew i := nth i ew.1 ew.2;
|}.

End ToyPadded.

(** ** The core's objects, from the specification

    The objects that the wrapper holds ([RawS68k], [RawCompiler],
    [RawInterpreter]) live in the core; the wrapper holds handles to them.
    Here the core keeps one store per kind of object, a handle is the index
    of its object, and a new object takes the next index. What the
    specification leaves open (the parser, the rule set, the compiler, the
    initial machine, the opcode table) is a parameter. *)
Module SpecObjects.

(** Modelled from the spec: a [SemanticError] is a message and a zero-based
    line index; the list wrapper is the ordered list of them. *)
Definition errs : ErrorPkg := {|
  RawSemanticError := string * Z;
  RawSemanticErrors := list (string * Z);
  wasm_get_message e := e.1;
  wasm_get_line e := e.2;
  get_length := length;
  get_error_at_index l i := nth i l (String.EmptyString, 0);
|}.

Definition types : InterpreterTypes := {|
  RawInterpreter := nat;
  Interrupt := nat;
  InterruptResult := Z;
  InstructionLine := Z;
|}.

Definition stypes : S68kTypes := {|
  RawS68k := nat;
  RawCompiler := nat;
|}.

(** A call into the core returns, or throws, or does not return. *)
Inductive outcome (A : Type) :=
  | returned (a : A)
  | threw (e : string)
  | diverged.
Global Arguments returned {A} a.
Global Arguments threw {A} e.
Global Arguments diverged {A}.

Section objects.
Context {Line Program : Type}.
(** The parser: source text to instruction lines. *)
Variable parse : string → list Line.
(** The rule set: the messages of the violations of one line, within its
    program (a label may be defined on any line). *)
Variable violations : list Line → Line → list string.
(** The compiler, and the machine an interpreter starts from for a program
    and a memory size. *)
Variable build : list Line → Program.
Variable boot : Program → Z → SpecCore.Machine.
(** The parameters of the machine of [SpecCore]. *)
Variable execute : SpecCore.Machine → SpecCore.Machine.
Variable complete : Z → SpecCore.Machine → SpecCore.Machine.
Variable fuel : nat.

Record World := {
  sources : list (list Line);
  programs : list Program;
  interpreters : list SpecCore.Machine;
}.

Definition Call (A : Type) : Type := World → outcome A * World.

Global Instance Call_ret : MRet Call := λ A a w, (returned a, w).
Global Instance Call_bind : MBind Call :=
  λ A B f m w,
    match m w with
    | (returned a, w') => f a w'
    | (threw e, w') => (threw e, w')
    | (diverged, w') => (diverged, w')
    end.

(** Modelled from the spec: the analyzer checks every line, collects every
    violation and returns them in source order, each with the index of its
    line; it is a function of the parsed source. *)
Definition analyse (lines : list Line) : list (string * Z) :=
  concat (imap (λ i line, map (λ message, (message, Z.of_nat i)) (violations lines line))
               lines).

(** [new RawS68k(code)]: a new source object. *)
Definition new_RawS68k (code : string) : Call nat :=
  λ w, (returned (length (sources w)),
        {| sources := sources w ++ [parse code]; programs := programs w;
           interpreters := interpreters w |}).

(** Modelled from the spec: the semantic check reads the source of its
    object and changes nothing. The core's [wasm_semantic_check] is not
    part of the TypeScript source. *)
Definition wasm_semantic_check (raw : nat) : Call (list (string * Z)) :=
  λ w,
    match sources w !! raw with
    | Some lines => (returned (analyse lines), w)
    | None => (threw "null pointer", w)
    end.

(** Modelled from the spec: compiling builds a new program object. The
    core's [wasm_compile] is not part of the TypeScript source. *)
Definition wasm_compile (raw : nat) : Call nat :=
  λ w,
    match sources w !! raw with
    | Some lines =>
        (returned (length (programs w)),
         {| sources := sources w; programs := programs w ++ [build lines];
            interpreters := interpreters w |})
    | None => (threw "null pointer", w)
    end.

(** Modelled from the spec: a compiled program is immutable and may be
    reused; an interpreter built from it owns a machine of its own, fixed
    to the memory size given. The core's [wasm_create_interpreter] is not
    part of the TypeScript source. *)
Definition wasm_create_interpreter (raw program : nat) (memorySize : Z) : Call nat :=
  λ w,
    match sources w !! raw, programs w !! program with
    | Some _, Some compiled =>
        (returned (length (interpreters w)),
         {| sources := sources w; programs := programs w;
            interpreters := interpreters w ++ [boot compiled memorySize] |})
    | _, _ => (threw "null pointer", w)
    end.

Definition spec_s68k : @S68kApi Call types errs stypes :=
  @Build_S68kApi Call types errs stypes
    new_RawS68k wasm_semantic_check wasm_compile wasm_create_interpreter.

(** A call of the machine of [SpecCore], made on the interpreter behind a
    handle: only that interpreter's machine is written. *)
Definition on_interpreter {A : Type} (raw : nat) (c : SpecCore.Exec A) : Call A :=
  λ w,
    match interpreters w !! raw with
    | Some m =>
        match c m with
        | SpecCore.Returned a m' =>
            (returned a,
             {| sources := sources w; programs := programs w;
                interpreters := <[raw := m']> (interpreters w) |})
        | SpecCore.Rejected _ => (threw "rejected", w)
        | SpecCore.Diverged => (diverged, w)
        end
    | None => (threw "null pointer", w)
    end.

Definition spec_exec : @ExecApi Call types :=
  @Build_ExecApi Call types
    (λ raw, on_interpreter raw (SpecCore.wasm_step execute tt))
    (λ raw, on_interpreter raw (SpecCore.wasm_run execute fuel tt))
    (λ raw result, on_interpreter raw (SpecCore.wasm_answer_interrupt complete tt result))
    (λ raw, on_interpreter raw (SpecCore.wasm_get_current_interrupt tt)).

Definition spec_registers : @RegisterApi Call types :=
  @Build_RegisterApi Call types
    (λ raw register size,
       on_interpreter raw (SpecCore.wasm_get_register_value tt register size))
    (λ raw register value size,
       on_interpreter raw (SpecCore.wasm_set_register_value tt register value size)).
End objects.

End SpecObjects.

(** Small parameters for the objects of the specification: one instruction
    per character, only [n] is an instruction, a program is its source, and
    every interpreter boots the toy machine. *)
Module ToyObjects.

Definition parse (code : string) : list ascii := String.list_ascii_of_string code.

Definition violations (program : list ascii) (line : ascii) : list string :=
  if Ascii.eqb line "n"%char then [] else ["unknown instruction"%string].

Definition build (lines : list ascii) : list ascii := lines.

Definition boot (program : list ascii) (memorySize : Z) : SpecCore.Machine := Toy.machine.

Definition core : @S68kApi SpecObjects.Call SpecObjects.types SpecObjects.errs
                    SpecObjects.stypes :=
  SpecObjects.spec_s68k parse violations build boot.

(** The world after [new S68k("nn")] and its [compile()]. *)
Definition compiled_world : SpecObjects.World := {|
  SpecObjects.sources := [parse "nn"];
  SpecObjects.programs := [build (parse "nn")];
  SpecObjects.interpreters := [];
|}.

End ToyObjects.

(** * Properties of the binding *)

Lemma State_bind_run {W A B : Type} (m : State W A) (f : A → State W B) (w : W) :
  (x ← m; f x) w = f (m w).1 (m w).2.
Proof. unfold mbind, State_bind. by destruct (m w). Qed.

(** ** Cpu: the register snapshot *)
Section cpu_snapshot.
Context {pkg : CpuPkg}.

Lemma getRegistersValues_app (this : Cpu.Cpu) :
  Cpu.getRegistersValues this
  = wasm_get_d_regs_value (Cpu.cpu this) ++ wasm_get_a_regs_value (Cpu.cpu this).
Proof. reflexivity. Qed.

Lemma getRegister_not_Data (this : Cpu.Cpu) (register : Z) (type : RegisterType.t) :
  type ≠ RegisterType.Data →
  Cpu.getRegister this register type
  = Register.new (wasm_get_a_reg (Cpu.cpu this) register).
Proof. intros Hne. unfold Cpu.getRegister. by rewrite decide_False. Qed.

(** C10. On a snapshot whose core reports 8 data and 8 address values,
    [getRegistersValues] is 16 long, its entries 0..7 are the data values
    and its entries 8..15 the address values, each at its own index; and
    for every [type] other than [Data], a member of the enum or not,
    [getRegister] returns what it returns for [Address]: the wrapper of
    the core's address register. *)
Theorem cpu_registers_data_then_address
    (this : Cpu.Cpu) (register : Z) (type : RegisterType.t) :
  let dReg := wasm_get_d_regs_value (Cpu.cpu this) in
  let aReg := wasm_get_a_regs_value (Cpu.cpu this) in
  length dReg = 8%nat →
  length aReg = 8%nat →
  type ≠ RegisterType.Data →
  (length (Cpu.getRegistersValues this) = 16%nat
   ∧ take 8 (Cpu.getRegistersValues this) = dReg
   ∧ drop 8 (Cpu.getRegistersValues this) = aReg
   ∧ ∀ i : nat, (i < 8)%nat →
       Cpu.getRegistersValues this !! i = dReg !! i
       ∧ Cpu.getRegistersValues this !! (8 + i)%nat = aReg !! i)
  ∧ Cpu.getRegister this register type
    = Cpu.getRegister this register RegisterType.Address
  ∧ Cpu.getRegister this register type
    = Register.new (wasm_get_a_reg (Cpu.cpu this) register)
  ∧ Cpu.getRegister this register RegisterType.Data
    = Register.new (wasm_get_d_reg (Cpu.cpu this) register).
Proof.
  intros dReg aReg Hd Ha Hne. rewrite getRegistersValues_app.
  fold dReg aReg. repeat split.
  - rewrite length_app. lia.
  - rewrite take_app_length'; done.
  - rewrite drop_app_length'; done.
  - rewrite lookup_app_l; [done | lia].
  - rewrite <- Hd. by rewrite lookup_app_r, Nat.add_comm, Nat.add_sub by lia.
  - rewrite !getRegister_not_Data; done.
  - by apply getRegister_not_Data.
Qed.
End cpu_snapshot.

(** The toy snapshot, asked for register 3 with a type outside the enum. *)
Lemma cpu_registers_data_then_address_witness :
  let this := Cpu.new (pkg := Toy.cpu)
                ([10; 11; 12; 13; 14; 15; 16; 17], [20; 21; 22; 23; 24; 25; 26; 27]) in
  Cpu.getRegistersValues this
  = [10; 11; 12; 13; 14; 15; 16; 17; 20; 21; 22; 23; 24; 25; 26; 27]
  ∧ Cpu.getRegisterValue this 3 7 = 23.
Proof.
  pose proof (cpu_registers_data_then_address (pkg := Toy.cpu)
    (Cpu.new (pkg := Toy.cpu)
       ([10; 11; 12; 13; 14; 15; 16; 17], [20; 21; 22; 23; 24; 25; 26; 27])) 3 7
    eq_refl eq_refl ltac:(discriminate)) as (_ & _ & Ha & _).
  split; [reflexivity |].
  unfold Cpu.getRegisterValue. rewrite Ha. reflexivity.
Defined.

(** ** Interpreter: flags *)
Section flags_marshalling.
Context {W : Type} {types : InterpreterTypes} {core : FlagsApi (State W)}.

(** C6. [getFlagsAsArray] leaves the world as the core's call left it and
    returns a list as long as the core's array in which entry [i] is
    [true] exactly when the core's entry [i] is 1; [getFlagsAsBitfield]
    is the core's [wasm_get_flags_as_number], result and world. *)
Theorem flags_as_array_and_bitfield (this : Interpreter.Interpreter) (w : W) :
  let raw := Interpreter.interpreter this in
  (let '(flags, w') := Interpreter.getFlagsAsArray this w in
   w' = (wasm_get_flags_as_array raw w).2
   ∧ length flags = length (wasm_get_flags_as_array raw w).1
   ∧ ∀ i : nat,
       flags !! i = Some true ↔ (wasm_get_flags_as_array raw w).1 !! i = Some 1)
  ∧ Interpreter.getFlagsAsBitfield this w = wasm_get_flags_as_number raw w.
Proof.
  cbn zeta. split; [| reflexivity].
  unfold Interpreter.getFlagsAsArray, mbind, mret, State_bind, State_ret.
  destruct (wasm_get_flags_as_array (M := State W) (Interpreter.interpreter this) w)
    as [raw_flags w1].
  cbn. split; [done |]. split; [by rewrite length_map |].
  intros i. change (map ?f raw_flags) with (f <$> raw_flags).
  rewrite list_lookup_fmap.
  destruct (raw_flags !! i) as [v|]; cbn; [| done].
  split.
  - intros [= Hv]. by apply bool_decide_eq_true in Hv as ->.
  - intros [= ->]. done.
Qed.
End flags_marshalling.

Example flags_as_array_toy :
  Interpreter.getFlagsAsArray (M := State (list Z)) (api := Toy.flags)
    (Interpreter.new (types := Toy.types) 0%nat) [1; 0; 0; 1; 2]
  = ([true; false; false; true; false], [1; 0; 0; 1; 2]).
Proof. reflexivity. Qed.

(** ** S68k: semantic check *)
Section semantic_check.
Context {errs : ErrorPkg}.

(** The loop appends the wrappers of the core's errors [i], [i+1], ...
    up to the reported length. *)
Lemma semanticCheck_loop_seq (errorWrapper : RawSemanticErrors) (i : nat)
    (errors : list SemanticError.SemanticError) :
  S68k.semanticCheck_loop errorWrapper i errors
  = errors ++ map (λ j, SemanticError.new (get_error_at_index errorWrapper j))
                  (seq i (get_length errorWrapper - i)).
Proof.
  funelim (S68k.semanticCheck_loop errorWrapper i errors).
  - match goal with IH : S68k.semanticCheck_loop _ _ _ = _ ++ _ |- _ => rewrite IH end.
    rewrite <- app_assoc. f_equal.
    replace (get_length errorWrapper - i)%nat
      with (S (get_length errorWrapper - S i)) by lia.
    reflexivity.
  - replace (get_length errorWrapper - i)%nat with 0%nat by lia.
    cbn. by rewrite app_nil_r.
Qed.

Lemma semanticCheck_loop_length (errorWrapper : RawSemanticErrors) :
  length (S68k.semanticCheck_loop errorWrapper 0 []) = get_length errorWrapper.
Proof.
  rewrite semanticCheck_loop_seq. cbn.
  rewrite length_map, length_seq. lia.
Qed.

Lemma semanticCheck_loop_lookup (errorWrapper : RawSemanticErrors) (i : nat) :
  (i < get_length errorWrapper)%nat →
  S68k.semanticCheck_loop errorWrapper 0 [] !! i
  = Some (SemanticError.new (get_error_at_index errorWrapper i)).
Proof.
  intros Hi. rewrite semanticCheck_loop_seq. cbn.
  change (map ?f ?l) with (f <$> l). rewrite list_lookup_fmap.
  rewrite Nat.sub_0_r, lookup_seq_lt by done. reflexivity.
Qed.

Lemma semanticCheck_loop_content (errorWrapper : RawSemanticErrors) :
  map error_content (S68k.semanticCheck_loop errorWrapper 0 [])
  = map (λ i, let e := get_error_at_index errorWrapper i in
              (wasm_get_message e, wasm_get_line e))
        (seq 0 (get_length errorWrapper)).
Proof.
  rewrite semanticCheck_loop_seq. cbn.
  rewrite Nat.sub_0_r, map_map. reflexivity.
Qed.
End semantic_check.

Section semantic_check_core.
Context {W : Type} {types : InterpreterTypes} {errs : ErrorPkg}
  {stypes : S68kTypes} {core : S68kApi (State W)}.

Lemma semanticCheck_unfold (this : S68k.S68k) (w : W) :
  S68k.semanticCheck (M := State W) this w
  = (S68k.semanticCheck_loop (wasm_semantic_check (S68k._s68k this) w).1 0 [],
     (wasm_semantic_check (S68k._s68k this) w).2).
Proof.
  unfold S68k.semanticCheck, mbind, mret, State_bind, State_ret.
  by destruct (wasm_semantic_check (M := State W) (S68k._s68k this) w).
Qed.

Lemma static_semanticCheck_unfold (code : string) (w : W) :
  S68k.static_semanticCheck (M := State W) code w
  = S68k.semanticCheck (S68k.constructor code w).1 (S68k.constructor code w).2.
Proof.
  unfold S68k.static_semanticCheck, S68k.constructor, mbind, mret, State_bind, State_ret.
  by destruct (new_RawS68k (M := State W) code w).
Qed.

Lemma static_semanticCheck_report (code : string) (w : W) :
  map error_content (S68k.static_semanticCheck (M := State W) code w).1
  = analysis_report core code w.
Proof.
  rewrite static_semanticCheck_unfold, semanticCheck_unfold. cbn.
  rewrite semanticCheck_loop_content.
  unfold analysis_report, S68k.constructor, mbind, mret, State_bind, State_ret.
  destruct (new_RawS68k (M := State W) code w) as [raw w1]. cbn.
  by destruct (wasm_semantic_check (M := State W) raw w1).
Qed.

(** C3. [semanticCheck] leaves the world as the core's
    [wasm_semantic_check] left it; its list is as long as the count the
    core reports, its [i]-th element is the wrapper of the core's error
    at index [i], and what a host reads off that element is the core's
    message and line index; [getMessage] and [getLineIndex] of any
    [SemanticError] are the core's message and line of the wrapped
    error. *)
Theorem semanticCheck_wraps_core_errors (this : S68k.S68k) (w : W) :
  let '(errorWrapper, w1) := wasm_semantic_check (S68k._s68k this) w in
  let '(errors, w') := S68k.semanticCheck this w in
  w' = w1
  ∧ length errors = get_length errorWrapper
  ∧ (∀ i : nat, (i < get_length errorWrapper)%nat →
       errors !! i = Some (SemanticError.new (get_error_at_index errorWrapper i))
       ∧ error_content <$> errors !! i
         = Some (wasm_get_message (get_error_at_index errorWrapper i),
                 wasm_get_line (get_error_at_index errorWrapper i)))
  ∧ ∀ e : SemanticError.SemanticError,
      SemanticError.getMessage e = wasm_get_message (SemanticError.error e)
      ∧ SemanticError.getLineIndex e = wasm_get_line (SemanticError.error e).
Proof.
  rewrite semanticCheck_unfold.
  destruct (wasm_semantic_check (M := State W) (S68k._s68k this) w)
    as [errorWrapper w1]; cbn.
  split; [done |]. split; [apply semanticCheck_loop_length |].
  split; [| done].
  intros i Hi. rewrite semanticCheck_loop_lookup by done. done.
Qed.

(** The wrapper adds no state of its own: over a core whose analysis is
    pure, the static [semanticCheck] is the instance [semanticCheck] of a
    freshly constructed [S68k], and in any two worlds it returns errors of
    identical content in identical order. *)
Lemma static_semanticCheck_as_pure_as_core (code : string) (w w' : W) :
  pure_analysis core →
  (let '(s68k, w1) := S68k.constructor code w in
   S68k.static_semanticCheck code w = S68k.semanticCheck s68k w1)
  ∧ map error_content (S68k.static_semanticCheck code w).1
    = map error_content (S68k.static_semanticCheck code w').1
  ∧ (let '(first, w1) := S68k.static_semanticCheck code w in
     let '(second, _) := S68k.static_semanticCheck code w1 in
     map error_content first = map error_content second).
Proof.
  intros Hpure.
  assert (Hany : ∀ u u' : W,
             map error_content (S68k.static_semanticCheck code u).1
             = map error_content (S68k.static_semanticCheck code u').1).
  { intros u u'. rewrite !static_semanticCheck_report. apply Hpure. }
  split; [| split].
  - rewrite static_semanticCheck_unfold.
    by destruct (S68k.constructor (M := State W) code w).
  - apply Hany.
  - specialize (Hany w (S68k.static_semanticCheck (M := State W) code w).2).
    destruct (S68k.static_semanticCheck (M := State W) code w) as [first w1].
    cbn in Hany.
    by destruct (S68k.static_semanticCheck (M := State W) code w1).
Qed.
End semantic_check_core.

(** The toy analyzer is pure; the static check of one source, run in two
    worlds, reports the same two errors. *)
Example static_semanticCheck_on_toy_analyzer :
  pure_analysis Toy.s68k
  ∧ map error_content
      (S68k.static_semanticCheck (M := State nat) (api := Toy.s68k) "nxny" 0%nat).1
    = [("unknown instruction"%string, 1); ("unknown instruction"%string, 3)]
  ∧ map error_content
      (S68k.static_semanticCheck (M := State nat) (api := Toy.s68k) "nxny" 5%nat).1
    = [("unknown instruction"%string, 1); ("unknown instruction"%string, 3)].
Proof.
  assert (Hpure : pure_analysis Toy.s68k) by (intros code w w'; reflexivity).
  split; [exact Hpure |].
  pose proof (static_semanticCheck_as_pure_as_core (core := Toy.s68k) "nxny" 0%nat 5%nat Hpure)
    as (_ & Hsame & _).
  split; [reflexivity | rewrite <- Hsame; reflexivity].
Qed.

(** An analyzer that is not pure answers differently the second time. *)
Example stale_analysis_differs :
  ¬ pure_analysis Toy.stale_s68k
  ∧ (let '(first, w1) :=
       S68k.static_semanticCheck (M := State nat) (api := Toy.stale_s68k) "n" 0%nat in
     let '(second, _) :=
       S68k.static_semanticCheck (M := State nat) (api := Toy.stale_s68k) "n" w1 in
     map error_content first = [] ∧ map error_content second = [("stale"%string, 0)]).
Proof.
  split; [| by vm_compute].
  intros Hpure. specialize (Hpure "n"%string 0%nat 1%nat). vm_compute in Hpure.
  discriminate.
Qed.

(** ** S68k: compilation and interpreter construction *)
Section construction.
Context {W : Type} {types : InterpreterTypes} {errs : ErrorPkg}
  {stypes : S68kTypes} (core : S68kApi (State W)).

Local Abbreviation O := (State (W * list s68k_call)).
Local Existing Instance observed_s68k.

Lemma constructor_observed (code : string) (w : W) (log : list s68k_call) :
  S68k.constructor (M := O) code (w, log)
  = (S68k.mk (new_RawS68k code w).1,
     ((new_RawS68k code w).2, log ++ [call_new_RawS68k code])).
Proof.
  unfold S68k.constructor, mbind, mret, State_bind, State_ret; cbn.
  by destruct (new_RawS68k (M := State W) code w).
Qed.

Lemma semanticCheck_observed (this : S68k.S68k) (w : W) (log : list s68k_call) :
  S68k.semanticCheck (M := O) this (w, log)
  = ((S68k.semanticCheck (M := State W) this w).1,
     ((S68k.semanticCheck (M := State W) this w).2,
      log ++ [call_wasm_semantic_check (S68k._s68k this)])).
Proof.
  unfold S68k.semanticCheck, mbind, mret, State_bind, State_ret; cbn.
  by destruct (wasm_semantic_check (M := State W) (S68k._s68k this) w).
Qed.

Lemma createInterpreter_observed (this : S68k.S68k) (memorySize : option Z)
    (program : option CompiledProgram.CompiledProgram) (w : W) (log : list s68k_call) :
  let raw := S68k._s68k this in
  let size := default 16777215 memorySize in
  S68k.createInterpreter (M := O) this memorySize program (w, log)
  = match program with
    | Some program =>
        let '(created, w') :=
          wasm_create_interpreter raw (CompiledProgram.program program) size w in
        (Interpreter.new created,
         (w', log ++ [call_wasm_create_interpreter raw
                        (CompiledProgram.program program) size]))
    | None =>
        let '(compiled, w1) := wasm_compile raw w in
        let '(created, w') := wasm_create_interpreter raw compiled size w1 in
        (Interpreter.new created,
         (w', log ++ [call_wasm_compile raw;
                      call_wasm_create_interpreter raw compiled size]))
    end.
Proof.
  cbn zeta. unfold S68k.createInterpreter, S68k.compile.
  unfold mbind, mret, State_bind, State_ret; cbn.
  destruct program as [program|]; cbn.
  - by destruct (wasm_create_interpreter (M := State W) _ _ _ w).
  - destruct (wasm_compile (M := State W) _ w) as [compiled w1]; cbn.
    destruct (wasm_create_interpreter (M := State W) _ compiled _ w1); cbn.
    by rewrite <- app_assoc.
Qed.

(** C2. [createInterpreter] without a [memorySize], with a program or
    without one, makes exactly one [wasm_create_interpreter] call, with
    memory size 16777215, and returns the wrapper of what that call
    returned. *)
Theorem createInterpreter_default_memorySize (this : S68k.S68k)
    (program : option CompiledProgram.CompiledProgram) (w : W) (log : list s68k_call) :
  let '(interpreter, (w', log')) :=
    S68k.createInterpreter (M := O) this None program (w, log) in
  ∃ (compiled : RawCompiler) (w0 : W) (before : list s68k_call),
    wasm_create_interpreter (S68k._s68k this) compiled 16777215 w0
    = (Interpreter.interpreter interpreter, w')
    ∧ log' = log ++ before
                 ++ [call_wasm_create_interpreter (S68k._s68k this) compiled 16777215]
    ∧ ∀ raw p size, call_wasm_create_interpreter raw p size ∉ before.
Proof.
  rewrite createInterpreter_observed. cbn zeta. cbn [default].
  destruct program as [program|].
  - destruct (wasm_create_interpreter (M := State W) _ _ _ w) as [created w'] eqn:Hc.
    exists (CompiledProgram.program program), w, [].
    split; [done |]. split; [done |]. intros raw p size Hin. by inv Hin.
  - destruct (wasm_compile (M := State W) _ w) as [compiled w1].
    destruct (wasm_create_interpreter (M := State W) _ compiled _ w1)
      as [created w'] eqn:Hc.
    exists compiled, w1, [call_wasm_compile (S68k._s68k this)].
    split; [done |]. split; [done |].
    intros raw p size Hin. apply list_elem_of_singleton in Hin. discriminate.
Qed.
Lemma createInterpreter_times_observed (n : nat) (this : S68k.S68k)
    (memorySize : option Z) (program : CompiledProgram.CompiledProgram)
    (w : W) (log : list s68k_call) :
  let call := call_wasm_create_interpreter (S68k._s68k this)
                (CompiledProgram.program program) (default 16777215 memorySize) in
  let '(interpreters, (_, log')) :=
    createInterpreter_times (M := O) n this memorySize program (w, log) in
  length interpreters = n ∧ log' = log ++ replicate n call.
Proof.
  cbn zeta. revert w log. induction n as [|n IH]; intros w log.
  - cbn. by rewrite app_nil_r.
  - cbn [createInterpreter_times]. unfold mbind at 1, State_bind at 1.
    pose proof (createInterpreter_observed this memorySize (Some program) w log) as Hone.
    cbn zeta in Hone. rewrite Hone. clear Hone.
    destruct (wasm_create_interpreter (M := State W) _ _ _ w) as [created w1].
    unfold mbind, State_bind. specialize (IH w1 (log ++
      [call_wasm_create_interpreter (S68k._s68k this)
         (CompiledProgram.program program) (default 16777215 memorySize)])).
    destruct (createInterpreter_times (M := O) n this memorySize program _)
      as [rest [w' log']].
    destruct IH as [Hlen ->]. cbn. split; [by rewrite Hlen |].
    by rewrite <- app_assoc.
Qed.

(** Over any core: given a program, [createInterpreter] makes one core
    call, [wasm_create_interpreter] on exactly that program, and no
    [wasm_compile] call; given none, it calls [wasm_compile] first and
    creates the interpreter from its result; [n] creations from one
    compiled program make [n] [wasm_create_interpreter] calls on that
    program and no compilation. *)
Lemma createInterpreter_calls (this : S68k.S68k) (memorySize : option Z)
    (program : CompiledProgram.CompiledProgram) (n : nat)
    (w : W) (log : list s68k_call) :
  let raw := S68k._s68k this in
  let size := default 16777215 memorySize in
  let given := CompiledProgram.getCompiledProgram program in
  (let '(interpreter, (w', log')) :=
     S68k.createInterpreter (M := O) this memorySize (Some program) (w, log) in
   wasm_create_interpreter raw given size w = (Interpreter.interpreter interpreter, w')
   ∧ log' = log ++ [call_wasm_create_interpreter raw given size])
  ∧ (let '(compiled, w1) := wasm_compile raw w in
     let '(interpreter, (w', log')) :=
       S68k.createInterpreter (M := O) this memorySize None (w, log) in
     wasm_create_interpreter raw compiled size w1
     = (Interpreter.interpreter interpreter, w')
     ∧ log' = log ++ [call_wasm_compile raw;
                      call_wasm_create_interpreter raw compiled size])
  ∧ (let '(interpreters, (_, log')) :=
       createInterpreter_times (M := O) n this memorySize program (w, log) in
     length interpreters = n
     ∧ log' = log ++ replicate n (call_wasm_create_interpreter raw given size)
     ∧ ∀ r, call_wasm_compile r ∉ drop (length log) log').
Proof.
  cbn zeta. split; [| split].
  - pose proof (createInterpreter_observed this memorySize (Some program) w log) as Hone.
    cbn zeta in Hone. rewrite Hone. unfold CompiledProgram.getCompiledProgram.
    by destruct (wasm_create_interpreter (M := State W) _ _ _ w).
  - pose proof (createInterpreter_observed this memorySize None w log) as Hone.
    cbn zeta in Hone. rewrite Hone.
    destruct (wasm_compile (M := State W) _ w) as [compiled w1].
    by destruct (wasm_create_interpreter (M := State W) _ compiled _ w1).
  - pose proof (createInterpreter_times_observed n this memorySize program w log) as Hn.
    cbn zeta in Hn.
    destruct (createInterpreter_times (M := O) n this memorySize program (w, log))
      as [interpreters [w' log']].
    destruct Hn as [Hlen ->]. split; [done |]. split; [done |].
    intros r Hin. rewrite drop_app_length in Hin.
    apply elem_of_replicate in Hin as [Heq _]. discriminate.
Qed.

(** C1. Let [errors] be what [semanticCheck] returns on a fresh [S68k] for
    the source. The static [compile] returns [{ok: false}] exactly when
    [errors] is not empty. In that case it carries [errors], and after
    the constructor and the semantic check the core is not called again:
    no interpreter is constructed. When [errors] is empty it returns
    [{ok: true}] with the wrapper of what [wasm_create_interpreter]
    returned for the program that [wasm_compile] returned and the given
    memory size. *)
Theorem static_compile_outcome (code : string) (memorySize : Z)
    (w : W) (log : list s68k_call) :
  let '(s68k, (w1, log1)) := S68k.constructor (M := O) code (w, log) in
  let '(errors, (w2, log2)) := S68k.semanticCheck (M := O) s68k (w1, log1) in
  let '(result, (w', log')) := S68k.static_compile (M := O) code memorySize (w, log) in
  let raw := S68k._s68k s68k in
  log2 = log ++ [call_new_RawS68k code; call_wasm_semantic_check raw]
  ∧ ((∃ reported, result = S68k.ok_false reported) ↔ errors ≠ [])
  ∧ (errors ≠ [] →
       result = S68k.ok_false errors ∧ w' = w2 ∧ log' = log2
       ∧ ∀ r p size, call_wasm_create_interpreter r p size ∉ drop (length log) log')
  ∧ (errors = [] →
       ∃ (compiled : RawCompiler) (w3 : W) (created : RawInterpreter),
         wasm_compile raw w2 = (compiled, w3)
         ∧ wasm_create_interpreter raw compiled memorySize w3 = (created, w')
         ∧ result = S68k.ok_true (Interpreter.new created)
         ∧ log' = log2 ++ [call_wasm_compile raw;
                           call_wasm_create_interpreter raw compiled memorySize]).
Proof.
  unfold S68k.static_compile. rewrite !State_bind_run.
  rewrite constructor_observed. cbn [fst snd].
  set (s68k := S68k.mk (new_RawS68k (M := State W) code w).1).
  rewrite semanticCheck_observed. cbn [fst snd].
  destruct (S68k.semanticCheck (M := State W) s68k (new_RawS68k (M := State W) code w).2)
    as [errors w2]. cbn [fst snd].
  rewrite <- app_assoc. cbn [app].
  destruct errors as [|e errors]; cbn [length Nat.ltb Nat.leb].
  - rewrite State_bind_run.
    pose proof (createInterpreter_observed s68k (Some memorySize) None w2
      (log ++ [call_new_RawS68k code; call_wasm_semantic_check (S68k._s68k s68k)]))
      as Hone.
    cbn zeta in Hone.
    change (default 16777215 (Some memorySize)) with memorySize in Hone.
    rewrite Hone. clear Hone.
    destruct (wasm_compile (M := State W) _ w2) as [compiled w3].
    destruct (wasm_create_interpreter (M := State W) _ compiled _ w3)
      as [created w'] eqn:Hcreated.
    cbn. split; [done |]. split; [| split].
    + split; [intros [reported [=]] | intros Hne; by destruct Hne].
    + intros Hne. by destruct Hne.
    + intros _. by exists compiled, w3, created.
  - cbn. split; [done |]. split; [| split].
    + split; [done | intros _; by eexists].
    + intros _. repeat split. intros r p size Hin.
      rewrite drop_app_length in Hin.
      apply elem_of_cons in Hin as [Hin | Hin]; [discriminate |].
      apply list_elem_of_singleton in Hin. discriminate.
    + done.
Qed.
End construction.

(** ** Interpreter: the interrupt handler *)

(** Membership in an explicit list of calls. *)
Ltac membership :=
  repeat first [ apply list_elem_of_here | apply list_elem_of_further ].
Ltac membership_in H :=
  repeat (apply elem_of_cons in H as [H|H];
          [first [ discriminate H | by injection H as -> | by injection H as -> -> ] |]);
  try (by apply elem_of_nil in H).
Section interrupt_handler.
Context {W : Type} {types : InterpreterTypes} (core : ExecApi (State W)).
Variable handler : option Interrupt → State W (option InterruptResult).

Local Abbreviation O := (State (W * list exec_call)).
Local Existing Instance observed_exec.

Lemma guarded_block_observed (this : Interpreter.Interpreter)
    (status : InterpreterStatus.t) (w1 : W) (log : list exec_call) :
  (if decide (status = InterpreterStatus.Interrupt)
   then
     current ← Interpreter.getCurrentInterrupt (M := O) this;
     result ← observed_handler handler current;
     match result with
     | Some result => Interpreter.answerInterrupt this result
     | None => mret tt
     end
   else mret tt) (w1, log)
  = (tt, ((mediation core handler (Interpreter.interpreter this) status w1).2,
          log ++ (mediation core handler (Interpreter.interpreter this) status w1).1)).
Proof.
  unfold mediation, Interpreter.getCurrentInterrupt, Interpreter.answerInterrupt.
  destruct (decide (status = InterpreterStatus.Interrupt)) as [_|_].
  - unfold mbind, mret, State_bind, State_ret; cbn.
    destruct (wasm_get_current_interrupt (M := State W) _ w1) as [current w2]; cbn.
    destruct (handler current w2) as [[result|] w3]; cbn.
    + destruct (wasm_answer_interrupt (M := State W) _ result w3) as [[] w4]; cbn.
      by rewrite <- !app_assoc.
    + by rewrite <- !app_assoc.
  - cbn. by rewrite app_nil_r.
Qed.

Lemma stepWithInterruptHandler_observed (this : Interpreter.Interpreter)
    (w : W) (log : list exec_call) :
  let raw := Interpreter.interpreter this in
  let step := (wasm_step raw w).1 in
  let after := mediation core handler raw step.2 (wasm_step raw w).2 in
  Interpreter.stepWithInterruptHandler (M := O) this (observed_handler handler) (w, log)
  = (step, (after.2, log ++ call_wasm_step raw :: after.1)).
Proof.
  cbn zeta. unfold Interpreter.stepWithInterruptHandler.
  rewrite State_bind_run. cbn [wasm_step observed_exec observe].
  destruct (wasm_step (M := State W) (Interpreter.interpreter this) w)
    as [[line status] w1]. cbn [fst snd].
  rewrite State_bind_run, guarded_block_observed. cbn.
  by rewrite <- app_assoc.
Qed.

Lemma runWithInterruptHandler_observed (this : Interpreter.Interpreter)
    (w : W) (log : list exec_call) :
  let raw := Interpreter.interpreter this in
  let status := (wasm_run raw w).1 in
  let after := mediation core handler raw status (wasm_run raw w).2 in
  Interpreter.runWithInterruptHandler (M := O) this (observed_handler handler) (w, log)
  = (status, (after.2, log ++ call_wasm_run raw :: after.1)).
Proof.
  cbn zeta. unfold Interpreter.runWithInterruptHandler.
  rewrite State_bind_run. cbn [wasm_run observed_exec observe].
  destruct (wasm_run (M := State W) (Interpreter.interpreter this) w)
    as [status w1]. cbn [fst snd].
  rewrite State_bind_run, guarded_block_observed. cbn.
  by rewrite <- app_assoc.
Qed.
Lemma mediation_protocol (raw : RawInterpreter) (status : InterpreterStatus.t) (w1 : W) :
  let '(calls, w') := mediation core handler raw status w1 in
  let '(current, w2) := wasm_get_current_interrupt raw w1 in
  let '(answer, w3) := handler current w2 in
  ((∃ i, call_onInterrupt i ∈ calls) ↔ status = InterpreterStatus.Interrupt)
  ∧ (∀ i, call_onInterrupt i ∈ calls → i = current)
  ∧ (∀ r r', call_wasm_answer_interrupt r r' ∈ calls ↔
       status = InterpreterStatus.Interrupt ∧ answer = Some r' ∧ r = raw)
  ∧ (status = InterpreterStatus.Interrupt → answer = None → w' = w3)
  ∧ (status = InterpreterStatus.Interrupt → ∀ r', answer = Some r' →
       w' = (wasm_answer_interrupt raw r' w3).2)
  ∧ (status ≠ InterpreterStatus.Interrupt → calls = [] ∧ w' = w1).
Proof.
  unfold mediation.
  destruct (wasm_get_current_interrupt (M := State W) raw w1) as [current w2].
  destruct (handler current w2) as [answer w3].
  destruct (decide (status = InterpreterStatus.Interrupt)) as [Hs|Hs].
  - destruct answer as [result|].
    + destruct (wasm_answer_interrupt (M := State W) raw result w3) as [[] w4] eqn:Ha.
      split; [split; [done | intros _; exists current; membership] |].
      split; [intros i Hin; membership_in Hin |].
      split; [intros r r'; split;
              [intros Hin; membership_in Hin | intros (_ & [= <-] & ->); membership] |].
      split; [done |].
      split; [intros _ r' [= <-]; by rewrite Ha | done].
    + split; [split; [done | intros _; exists current; membership] |].
      split; [intros i Hin; membership_in Hin |].
      split; [intros r r'; split; [intros Hin; membership_in Hin | intros (_ & [=] & _)] |].
      done.
  - split; [split; [intros [i Hin]; membership_in Hin | done] |].
    split; [intros i Hin; membership_in Hin |].
    split; [intros r r'; split; [intros Hin; membership_in Hin | intros [? _]; done] |].
    done.
Qed.

(** C5. [stepWithInterruptHandler] returns the [Step] of the underlying
    [wasm_step] and [runWithInterruptHandler] the status of the underlying
    [wasm_run], whatever happens afterwards. After the core call, the
    handler is invoked if and only if that status is Interrupt, and then
    on what [wasm_get_current_interrupt] returns; [wasm_answer_interrupt]
    is called if and only if the status is Interrupt and the handler
    returned a result, on this interpreter and with that result; when the
    handler returns nothing the world stays as the handler left it, and
    when the status is not Interrupt nothing more is called. *)
Theorem interrupt_handler_protocol (this : Interpreter.Interpreter)
    (w : W) (log : list exec_call) :
  let raw := Interpreter.interpreter this in
  let mediated (status : InterpreterStatus.t) (w1 w' : W) (calls : list exec_call) :=
    let '(current, w2) := wasm_get_current_interrupt raw w1 in
    let '(answer, w3) := handler current w2 in
    ((∃ i, call_onInterrupt i ∈ calls) ↔ status = InterpreterStatus.Interrupt)
    ∧ (∀ i, call_onInterrupt i ∈ calls → i = current)
    ∧ (∀ r r', call_wasm_answer_interrupt r r' ∈ calls ↔
         status = InterpreterStatus.Interrupt ∧ answer = Some r' ∧ r = raw)
    ∧ (status = InterpreterStatus.Interrupt → answer = None → w' = w3)
    ∧ (status = InterpreterStatus.Interrupt → ∀ r', answer = Some r' →
         w' = (wasm_answer_interrupt raw r' w3).2)
    ∧ (status ≠ InterpreterStatus.Interrupt → calls = [] ∧ w' = w1) in
  (let '(step, w1) := wasm_step raw w in
   ∃ (w' : W) (calls : list exec_call),
     Interpreter.stepWithInterruptHandler (M := O) this (observed_handler handler) (w, log)
     = (step, (w', log ++ call_wasm_step raw :: calls))
     ∧ mediated step.2 w1 w' calls)
  ∧ (let '(status, w1) := wasm_run raw w in
     ∃ (w' : W) (calls : list exec_call),
       Interpreter.runWithInterruptHandler (M := O) this (observed_handler handler) (w, log)
       = (status, (w', log ++ call_wasm_run raw :: calls))
       ∧ mediated status w1 w' calls).
Proof.
  cbn zeta. split.
  - pose proof (stepWithInterruptHandler_observed this w log) as Hrun.
    cbn zeta in Hrun. rewrite Hrun. clear Hrun.
    destruct (wasm_step (M := State W) (Interpreter.interpreter this) w) as [step w1].
    cbn [fst snd].
    pose proof (mediation_protocol (Interpreter.interpreter this) step.2 w1) as Hp.
    destruct (mediation core handler (Interpreter.interpreter this) step.2 w1)
      as [calls w'].
    exists w', calls. split; [done | exact Hp].
  - pose proof (runWithInterruptHandler_observed this w log) as Hrun.
    cbn zeta in Hrun. rewrite Hrun. clear Hrun.
    destruct (wasm_run (M := State W) (Interpreter.interpreter this) w) as [status w1].
    cbn [fst snd].
    pose proof (mediation_protocol (Interpreter.interpreter this) status w1) as Hp.
    destruct (mediation core handler (Interpreter.interpreter this) status w1)
      as [calls w'].
    exists w', calls. split; [done | exact Hp].
Qed.
End interrupt_handler.

(** ** The machine of the specification: stepping and running *)
Section spec_run.
Import SpecCore SpecRun.
Variable execute : Machine → Machine.
Variable complete : Z → Machine → Machine.

Local Abbreviation this := (Interpreter.new (types := spec_types) tt).

Lemma advance_times_rest (n : nat) (m : Machine) :
  status m ≠ InterpreterStatus.Running → advance_times execute n m = m.
Proof.
  intros Hrest. induction n as [|n IH]; [done |].
  cbn. unfold advance. by rewrite decide_False.
Qed.

Lemma wasm_step_accepted (m : Machine) :
  status m ≠ InterpreterStatus.Interrupt →
  ∃ step, wasm_step execute tt m = Returned step (advance execute m).
Proof.
  intros Hfree. unfold wasm_step, advance.
  destruct (status m) eqn:Hs; [| done | |].
  - rewrite decide_True by done. by eexists.
  - rewrite decide_False by done. by eexists.
  - rewrite decide_False by done. by eexists.
Qed.

Lemma step_times_advance (fuel n : nat) (m : Machine) :
  trap_free execute n m = true →
  step_times (M := Exec) (api := spec_exec execute complete fuel) n this m
  = Returned tt (advance_times execute n m).
Proof.
  revert m. induction n as [|n IH]; intros m Hfree; [done |].
  cbn in Hfree. apply andb_true_iff in Hfree as [Hm Hfree].
  apply bool_decide_eq_true in Hm.
  destruct (wasm_step_accepted m Hm) as [step Hstep].
  cbn [step_times advance_times]. unfold mbind, Exec_bind, Interpreter.step.
  cbn [Pkg.wasm_step spec_exec Interpreter.interpreter].
  rewrite Hstep. by apply IH.
Qed.

Lemma run_loop_advance (n fuel : nat) (m : Machine) :
  (n ≤ fuel)%nat →
  trap_free execute n m = true →
  status (advance_times execute n m) ≠ InterpreterStatus.Running →
  run_loop execute fuel m
  = Returned (status (advance_times execute n m)) (advance_times execute n m).
Proof.
  revert fuel m. induction n as [|n IH]; intros fuel m Hfuel Hfree Hrest.
  - cbn in *. destruct fuel; cbn; by rewrite decide_False.
  - destruct (decide (status m = InterpreterStatus.Running)) as [Hrun|Hstop].
    + destruct fuel as [|fuel]; [lia |].
      cbn in Hfree. apply andb_true_iff in Hfree as [Hm Hfree].
      apply bool_decide_eq_true in Hm.
      destruct (wasm_step_accepted m Hm) as [step Hstep].
      cbn [run_loop]. rewrite decide_True by done. rewrite Hstep.
      apply IH; [lia | done | done].
    + rewrite advance_times_rest by done.
      destruct fuel; cbn; by rewrite decide_False.
Qed.

(** C8. On a program that meets no trap within [n] instructions, [n]
    sequential [step()] calls all return; when the machine they leave is
    no longer Running, one [run()] on the same initial machine (allowed
    at least [n] instructions) returns that machine's status and leaves
    the same machine: registers, flags, memory, program counter and
    status. *)
Theorem step_times_matches_run (fuel n : nat) (m : Machine) :
  trap_free execute n m = true →
  (n ≤ fuel)%nat →
  ∃ m' : Machine,
    step_times (M := Exec) (api := spec_exec execute complete fuel) n this m
    = Returned tt m'
    ∧ (status m' ≠ InterpreterStatus.Running →
       Interpreter.run (M := Exec) (api := spec_exec execute complete fuel) this m
       = Returned (status m') m').
Proof.
  intros Hfree Hfuel. exists (advance_times execute n m).
  split; [by apply step_times_advance |].
  intros Hrest. unfold Interpreter.run.
  cbn [Pkg.wasm_run spec_exec Interpreter.interpreter]. unfold wasm_run.
  rewrite decide_False.
  - by apply (run_loop_advance n).
  - destruct n; cbn in Hfree; apply andb_true_iff in Hfree as [Hm _];
      by apply bool_decide_eq_true in Hm.
Qed.
End spec_run.

(** ** The machine of the specification: register widths *)
Section spec_registers.
Import SpecCore.

Local Abbreviation this := (Interpreter.new (types := spec_types) tt).

Lemma size_mask_ones (size : Size.t) : size_mask size = Z.ones (size_bits size).
Proof. by destruct size. Qed.

Lemma size_bits_nonneg (size : Size.t) : 0 ≤ size_bits size.
Proof. destruct size; cbn; lia. Qed.

Lemma read_sized_mod (held : Z) (size : Size.t) :
  read_sized held size = held `mod` 2 ^ size_bits size.
Proof.
  unfold read_sized. rewrite size_mask_ones.
  apply Z.land_ones, size_bits_nonneg.
Qed.

Lemma write_sized_testbit (held value : Z) (size : Size.t) (k : Z) :
  0 ≤ k →
  Z.testbit (write_sized held value size) k
  = if decide (k < size_bits size) then Z.testbit value k else Z.testbit held k.
Proof.
  intros Hk. unfold write_sized. rewrite size_mask_ones.
  pose proof (size_bits_nonneg size) as Hbits.
  rewrite Z.lor_spec, Z.ldiff_spec, Z.land_spec.
  destruct (decide (k < size_bits size)) as [Hlow|Hhigh].
  - rewrite Z.ones_spec_low by lia. cbn.
    by rewrite andb_false_r, andb_true_r.
  - rewrite Z.ones_spec_high by lia. cbn.
    by rewrite andb_false_r, andb_true_r, orb_false_r.
Qed.

Lemma testbit_above_32 (held k : Z) :
  0 ≤ held < 2 ^ 32 → 32 ≤ k → Z.testbit held k = false.
Proof.
  intros Hheld Hk.
  destruct (decide (held = 0)) as [->|Hnz]; [apply Z.bits_0 |].
  apply Z.bits_above_log2; [lia |].
  assert (Z.log2 held < 32) by (apply Z.log2_lt_pow2; lia). lia.
Qed.

Lemma write_sized_long (held value : Z) :
  0 ≤ held < 2 ^ 32 →
  write_sized held value Size.Long = value `mod` 2 ^ 32.
Proof.
  intros Hheld. apply Z.bits_inj'. intros k Hk.
  rewrite write_sized_testbit by done. cbn [size_bits].
  destruct (decide (k < 32)) as [Hlow|Hhigh].
  - by rewrite Z.mod_pow2_bits_low by lia.
  - rewrite Z.mod_pow2_bits_high by lia.
    apply testbit_above_32; [done | lia].
Qed.

Lemma write_sized_range (held value : Z) (size : Size.t) :
  0 ≤ held < 2 ^ 32 → 0 ≤ write_sized held value size < 2 ^ 32.
Proof.
  intros Hheld.
  assert (write_sized held value size = write_sized held value size `mod` 2 ^ 32)
    as ->; [| apply Z.mod_pos_bound; lia].
  apply Z.bits_inj'. intros k Hk.
  destruct (decide (k < 32)) as [Hlow|Hhigh].
  - by rewrite Z.mod_pow2_bits_low by lia.
  - rewrite Z.mod_pow2_bits_high by lia.
    rewrite write_sized_testbit by done.
    rewrite decide_False by (destruct size; cbn; lia).
    apply testbit_above_32; [done | lia].
Qed.

Lemma register_lookup_store (register : RegisterOperand) (held v : Z) (m : Machine) :
  register_lookup register m = Some held →
  register_lookup register (register_store register v m) = Some v.
Proof.
  destruct register as [i|i]; cbn; intros Hheld;
    apply list_lookup_insert_eq; by eapply lookup_lt_Some.
Qed.

Lemma register_lookup_store_other (register other : RegisterOperand) (v : Z)
    (m : Machine) :
  other ≠ register →
  register_lookup other (register_store register v m) = register_lookup other m.
Proof.
  destruct register as [i|i], other as [j|j]; cbn; intros Hne; try done;
    apply list_lookup_insert_ne; congruence.
Qed.
(** C9. Let a register hold the 32-bit value [held]. [setRegisterValue]
    with size byte leaves in it a value whose bits 8 and above are those
    of [held] (the upper 24 bits are unchanged) and whose bits 0..7 are
    those of the value written, and leaves every other register alone;
    with size long, which is also the default, it leaves the value
    written, all 32 bits of it. [getRegisterValue] with a size returns
    only the low bits of [held] for that size, as a non-negative number,
    and changes nothing. *)
Theorem register_width_masking (register : RegisterOperand) (held value : Z)
    (m : Machine) :
  register_lookup register m = Some held →
  0 ≤ held < 2 ^ 32 →
  (∃ (m' : Machine) (held' : Z),
     Interpreter.setRegisterValue (M := Exec) (api := spec_registers)
       this register value (Some Size.Byte) m = Returned tt m'
     ∧ register_lookup register m' = Some held'
     ∧ (∀ k, 8 ≤ k → Z.testbit held' k = Z.testbit held k)
     ∧ (∀ k, 0 ≤ k < 8 → Z.testbit held' k = Z.testbit value k)
     ∧ held' `div` 2 ^ 8 = held `div` 2 ^ 8
     ∧ 0 ≤ held' < 2 ^ 32
     ∧ ∀ other, other ≠ register →
         register_lookup other m' = register_lookup other m)
  ∧ (∃ m' : Machine,
       Interpreter.setRegisterValue (M := Exec) (api := spec_registers)
         this register value (Some Size.Long) m = Returned tt m'
       ∧ Interpreter.setRegisterValue (M := Exec) (api := spec_registers)
           this register value None m = Returned tt m'
       ∧ register_lookup register m' = Some (value `mod` 2 ^ 32))
  ∧ ∀ size : Size.t,
      Interpreter.getRegisterValue (M := Exec) (api := spec_registers)
        this register (Some size) m
      = Returned (held `mod` 2 ^ size_bits size) m
      ∧ 0 ≤ held `mod` 2 ^ size_bits size < 2 ^ size_bits size.
Proof.
  intros Hheld Hrange.
  unfold Interpreter.setRegisterValue, Interpreter.getRegisterValue.
  cbn [default from_option id Pkg.wasm_set_register_value
       Pkg.wasm_get_register_value spec_registers Interpreter.interpreter].
  unfold wasm_set_register_value, wasm_get_register_value. rewrite Hheld.
  split; [| split].
  - eexists _, _. split; [reflexivity |].
    split; [by eapply register_lookup_store |].
    assert (Hhigh : ∀ k, 8 ≤ k →
              Z.testbit (write_sized held value Size.Byte) k = Z.testbit held k).
    { intros k Hk. rewrite write_sized_testbit by lia.
      cbn [size_bits]. by rewrite decide_False by lia. }
    split; [exact Hhigh |]. split; [| split; [| split]].
    + intros k Hk. rewrite write_sized_testbit by lia.
      cbn [size_bits]. by rewrite decide_True by lia.
    + apply Z.bits_inj'. intros k Hk.
      rewrite !Z.div_pow2_bits by lia. apply Hhigh. lia.
    + by apply write_sized_range.
    + intros other Hne. by apply register_lookup_store_other.
  - eexists. split; [reflexivity |]. split; [reflexivity |].
    rewrite write_sized_long by done. by eapply register_lookup_store.
  - intros size. rewrite read_sized_mod. split; [done |].
    apply Z.mod_pos_bound. pose proof (size_bits_nonneg size). lia.
Qed.
End spec_registers.

(** On the toy machine, data register 1 holds 0x12345678: a byte write of
    0xAB leaves 0x123456AB, and a word read returns 0x5678. *)
Lemma register_width_masking_witness :
  SpecCore.register_lookup (DataRegister 1) Toy.machine = Some 0x12345678
  ∧ Interpreter.getRegisterValue (M := SpecCore.Exec) (api := SpecCore.spec_registers)
      (Interpreter.new (types := SpecCore.spec_types) tt)
      (DataRegister 1) (Some Size.Word) Toy.machine
    = SpecCore.Returned 0x5678 Toy.machine.
Proof.
  split; [reflexivity |].
  pose proof (register_width_masking (DataRegister 1) 0x12345678 0xAB Toy.machine
                eq_refl ltac:(lia)) as (_ & _ & Hread).
  exact (proj1 (Hread Size.Word)).
Defined.

(** The toy machine counts 3 down to 0 and halts on its fifth step; five
    steps and one run leave the same machine. *)
Lemma step_times_matches_run_witness :
  let api := SpecCore.spec_exec Toy.countdown (λ _ m, m) 10 in
  let this := Interpreter.new (types := SpecCore.spec_types) tt in
  SpecRun.trap_free Toy.countdown 5 Toy.machine = true
  ∧ ∃ m' : SpecCore.Machine,
      step_times (M := SpecCore.Exec) (api := api) 5 this Toy.machine
      = SpecCore.Returned tt m'
      ∧ Interpreter.run (M := SpecCore.Exec) (api := api) this Toy.machine
        = SpecCore.Returned InterpreterStatus.Terminated m'
      ∧ SpecCore.d_regs m' !! 0%nat = Some 0.
Proof.
  cbn zeta. split; [reflexivity |].
  destruct (step_times_matches_run Toy.countdown (λ _ m, m) 10 5 Toy.machine
              eq_refl ltac:(lia)) as (m' & Hsteps & Hrun).
  exists m'. split; [exact Hsteps |].
  assert (Hm' : m' = SpecRun.advance_times Toy.countdown 5 Toy.machine).
  { vm_compute in Hsteps. injection Hsteps as <-. reflexivity. }
  subst m'. split; [| reflexivity].
  apply Hrun. vm_compute. discriminate.
Defined.

(** Without the premise the two differ: after a trap, the next [step()] is
    rejected while [run()] has returned the Interrupt status. *)
Example trap_breaks_stepping :
  let trap m := SpecCore.with_pending (Some 1%nat)
                  (SpecCore.with_status InterpreterStatus.Interrupt m) in
  let api := SpecCore.spec_exec trap (λ _ m, m) 10 in
  let this := Interpreter.new (types := SpecCore.spec_types) tt in
  step_times (M := SpecCore.Exec) (api := api) 2 this Toy.machine
  = SpecCore.Rejected (trap Toy.machine)
  ∧ Interpreter.run (M := SpecCore.Exec) (api := api) this Toy.machine
    = SpecCore.Returned InterpreterStatus.Interrupt (trap Toy.machine).
Proof. split; reflexivity. Qed.

(** ** The binding on the toy core *)

Example static_compile_accepts :
  S68k.static_compile (M := State (nat * list s68k_call)) (api := observed_s68k Toy.s68k)
    "nn" 64 (0%nat, [])
  = (S68k.ok_true (Interpreter.new (types := Toy.types) 0%nat),
     (1%nat, [call_new_RawS68k (stypes := Toy.stypes) "nn"; call_wasm_semantic_check (stypes := Toy.stypes) "nn"%string;
              call_wasm_compile (stypes := Toy.stypes) "nn"%string;
              call_wasm_create_interpreter (stypes := Toy.stypes) "nn"%string "nn"%string 64])).
Proof. reflexivity. Qed.

Example static_compile_rejects :
  S68k.static_compile (M := State (nat * list s68k_call)) (api := observed_s68k Toy.s68k)
    "nxny" 64 (0%nat, [])
  = (S68k.ok_false
       [SemanticError.new (errs := Toy.errs) ("unknown instruction"%string, 1);
        SemanticError.new (errs := Toy.errs) ("unknown instruction"%string, 3)],
     (0%nat, [call_new_RawS68k (stypes := Toy.stypes) "nxny"; call_wasm_semantic_check (stypes := Toy.stypes) "nxny"%string])).
Proof. reflexivity. Qed.

Example createInterpreter_twice :
  createInterpreter_times (M := State (nat * list s68k_call))
    (api := observed_s68k Toy.s68k) 2
    (S68k.mk (stypes := Toy.stypes) "nn"%string) None
    (CompiledProgram.new (stypes := Toy.stypes) "nn"%string) (0%nat, [])
  = ([Interpreter.new (types := Toy.types) 0%nat;
      Interpreter.new (types := Toy.types) 1%nat],
     (2%nat, [call_wasm_create_interpreter (stypes := Toy.stypes) "nn"%string "nn"%string 16777215;
              call_wasm_create_interpreter (stypes := Toy.stypes) "nn"%string "nn"%string 16777215])).
Proof. reflexivity. Qed.

Example step_handler_answers :
  Interpreter.stepWithInterruptHandler (M := State (nat * list exec_call))
    (api := observed_exec Toy.exec) (Interpreter.new (types := Toy.types) 7%nat)
    (observed_handler (types := Toy.types) (λ _ w, (Some 5, w))) (1%nat, [])
  = ((1, InterpreterStatus.Interrupt),
     (102%nat, [call_wasm_step (types := Toy.types) 7%nat; call_wasm_get_current_interrupt (types := Toy.types) 7%nat;
                call_onInterrupt (types := Toy.types) (Some "read"%string);
                call_wasm_answer_interrupt (types := Toy.types) 7%nat 5])).
Proof. reflexivity. Qed.

Example step_handler_defers :
  Interpreter.stepWithInterruptHandler (M := State (nat * list exec_call))
    (api := observed_exec Toy.exec) (Interpreter.new (types := Toy.types) 7%nat)
    (observed_handler (types := Toy.types) (λ _ w, (None, w))) (1%nat, [])
  = ((1, InterpreterStatus.Interrupt),
     (2%nat, [call_wasm_step (types := Toy.types) 7%nat; call_wasm_get_current_interrupt (types := Toy.types) 7%nat;
              call_onInterrupt (types := Toy.types) (Some "read"%string)])).
Proof. reflexivity. Qed.

Example step_handler_not_invoked :
  Interpreter.stepWithInterruptHandler (M := State (nat * list exec_call))
    (api := observed_exec Toy.exec) (Interpreter.new (types := Toy.types) 7%nat)
    (observed_handler (types := Toy.types) (λ _ w, (Some 5, w))) (0%nat, [])
  = ((0, InterpreterStatus.Running), (1%nat, [call_wasm_step (types := Toy.types) 7%nat])).
Proof. reflexivity. Qed.

Example run_handler_answers :
  Interpreter.runWithInterruptHandler (M := State (nat * list exec_call))
    (api := observed_exec Toy.exec) (Interpreter.new (types := Toy.types) 7%nat)
    (observed_handler (types := Toy.types) (λ _ w, (Some 5, w))) (0%nat, [])
  = (InterpreterStatus.Interrupt,
     (102%nat, [call_wasm_run (types := Toy.types) 7%nat; call_wasm_get_current_interrupt (types := Toy.types) 7%nat;
                call_onInterrupt (types := Toy.types) (Some "read"%string);
                call_wasm_answer_interrupt (types := Toy.types) 7%nat 5])).
Proof. reflexivity. Qed.

Example byte_write_keeps_upper_bits :
  Interpreter.setRegisterValue (M := SpecCore.Exec) (api := SpecCore.spec_registers)
    (Interpreter.new (types := SpecCore.spec_types) tt)
    (DataRegister 1) 0xAB (Some Size.Byte) Toy.machine
  = SpecCore.Returned tt
      (SpecCore.register_store (DataRegister 1) 0x123456AB Toy.machine).
Proof. reflexivity. Qed.

(** * Further properties of the binding *)

(** ** S68k: how the methods compose *)
Section composition.
Context {W : Type} {types : InterpreterTypes} {errs : ErrorPkg}
  {stypes : S68kTypes} (core : S68kApi (State W)).

Local Abbreviation O := (State (W * list s68k_call)).
Local Existing Instance observed_s68k.

Lemma static_semanticCheck_observed (code : string) (w : W) (log : list s68k_call) :
  S68k.static_semanticCheck (M := O) code (w, log)
  = ((S68k.static_semanticCheck (M := State W) code w).1,
     ((S68k.static_semanticCheck (M := State W) code w).2,
      log ++ [call_new_RawS68k code;
              call_wasm_semantic_check (new_RawS68k code w).1])).
Proof.
  unfold S68k.static_semanticCheck. rewrite !State_bind_run.
  rewrite constructor_observed. cbn [fst snd].
  rewrite semanticCheck_observed. cbn [fst snd S68k._s68k].
  unfold S68k.constructor. rewrite State_bind_run. cbn.
  by rewrite <- app_assoc.
Qed.

Lemma static_compile_observed (code : string) (memorySize : Z)
    (w : W) (log : list s68k_call) :
  S68k.static_compile (M := O) code memorySize (w, log)
  = let s68k := S68k.mk (new_RawS68k code w).1 in
    let checked := S68k.semanticCheck (M := State W) s68k (new_RawS68k code w).2 in
    let log2 := log ++ [call_new_RawS68k code;
                        call_wasm_semantic_check (new_RawS68k code w).1] in
    if (0 <? length checked.1)%nat
    then (S68k.ok_false checked.1, (checked.2, log2))
    else
      let created :=
        S68k.createInterpreter (M := O) s68k (Some memorySize) None (checked.2, log2) in
      (S68k.ok_true created.1, created.2).
Proof.
  cbn zeta. unfold S68k.static_compile. rewrite !State_bind_run.
  rewrite constructor_observed. cbn [fst snd].
  rewrite semanticCheck_observed. cbn [fst snd S68k._s68k].
  rewrite <- app_assoc. cbn [app].
  destruct (0 <? length _)%nat; [reflexivity |].
  by rewrite State_bind_run.
Qed.

(** X1. Passing the result of the instance's own [compile()] to
    [createInterpreter] is the same as omitting the program: the same
    interpreter, the same world, the same two core calls. *)
Theorem createInterpreter_after_own_compile (this : S68k.S68k)
    (memorySize : option Z) (w : W) (log : list s68k_call) :
  let raw := S68k._s68k this in
  (program ← S68k.compile (M := O) this;
   S68k.createInterpreter this memorySize (Some program)) (w, log)
  = S68k.createInterpreter (M := O) this memorySize None (w, log)
  ∧ ∃ compiled,
      (S68k.createInterpreter (M := O) this memorySize None (w, log)).2.2
      = log ++ [call_wasm_compile raw;
                call_wasm_create_interpreter raw compiled
                  (default 16777215 memorySize)].
Proof.
  cbn zeta. split; [reflexivity |].
  pose proof (createInterpreter_observed core this memorySize None w log) as Hone.
  cbn zeta in Hone. rewrite Hone.
  destruct (wasm_compile (M := State W) _ w) as [compiled w1].
  destruct (wasm_create_interpreter (M := State W) _ compiled _ w1).
  by exists compiled.
Qed.

(** X2. Run from one world, the static [compile] and the static
    [semanticCheck] agree. The check makes the constructor call and the
    analysis call and nothing else. [compile] answers [{ok: true}] exactly
    when the check returns no error, which is exactly when the core
    reports a length of 0; when it answers [{ok: false}] it carries the
    errors of the check and leaves the world and the log of calls as the
    check alone leaves them; when it answers [{ok: true}] its calls extend
    those of the check. *)
Theorem static_compile_agrees_with_static_semanticCheck (code : string)
    (memorySize : Z) (w : W) (log : list s68k_call) :
  let '(raw, w1) := new_RawS68k code w in
  let '(report, _) := wasm_semantic_check raw w1 in
  let '(errors, (w2, log2)) := S68k.static_semanticCheck (M := O) code (w, log) in
  let '(result, (w', log')) := S68k.static_compile (M := O) code memorySize (w, log) in
  log2 = log ++ [call_new_RawS68k code; call_wasm_semantic_check raw]
  ∧ (errors = [] ↔ get_length report = 0%nat)
  ∧ match result with
    | S68k.ok_false reported =>
        reported = errors ∧ errors ≠ [] ∧ w' = w2 ∧ log' = log2
    | S68k.ok_true _ =>
        errors = [] ∧ ∃ more, log' = log2 ++ more
    end.
Proof.
  rewrite static_compile_observed, static_semanticCheck_observed.
  rewrite static_semanticCheck_unfold.
  unfold S68k.constructor. rewrite !State_bind_run. cbn [mret State_ret fst snd].
  rewrite !semanticCheck_unfold. cbn [fst snd S68k._s68k].
  destruct (new_RawS68k (M := State W) code w) as [raw w1]. cbn [fst snd].
  destruct (wasm_semantic_check (M := State W) raw w1) as [report w2]. cbn [fst snd].
  pose proof (semanticCheck_loop_length report) as Hlen.
  destruct (S68k.semanticCheck_loop report 0 []) as [|e rest].
  - cbn [length Nat.ltb Nat.leb].
    pose proof (createInterpreter_observed core (S68k.mk raw) (Some memorySize) None w2
      (log ++ [call_new_RawS68k code; call_wasm_semantic_check raw])) as Hone.
    cbn zeta in Hone. rewrite Hone. cbn [S68k._s68k].
    destruct (wasm_compile (M := State W) raw w2) as [compiled w3].
    destruct (wasm_create_interpreter (M := State W) raw compiled _ w3) as [created w'].
    cbn. split; [done |]. split; [done |]. split; [done | by eexists].
  - cbn. split; [done |]. split; [| done].
    cbn in Hlen. split; [done | lia].
Qed.
End composition.

(** ** Interpreter: order of the calls around the handler *)
Section handler_order.
Context {W : Type} {types : InterpreterTypes} (core : ExecApi (State W)).
Variable handler : option Interrupt → State W (option InterruptResult).

Local Abbreviation O := (State (W * list exec_call)).
Local Existing Instance observed_exec.

Lemma mediation_shapes (raw : RawInterpreter) (status : InterpreterStatus.t) (w1 : W) :
  let calls := (mediation core handler raw status w1).1 in
  calls = []
  ∨ (∃ i, calls = [call_wasm_get_current_interrupt raw; call_onInterrupt i])
  ∨ (∃ i r, calls = [call_wasm_get_current_interrupt raw; call_onInterrupt i;
                     call_wasm_answer_interrupt raw r]).
Proof.
  cbn zeta. unfold mediation.
  destruct (decide (status = InterpreterStatus.Interrupt)); [| by left].
  destruct (wasm_get_current_interrupt (M := State W) raw w1) as [current w2].
  destruct (handler current w2) as [[result|] w3].
  - destruct (wasm_answer_interrupt (M := State W) raw result w3) as [[] w4].
    right. right. by exists current, result.
  - right. left. by exists current.
Qed.

(** X3. Each of the two [...WithInterruptHandler] methods makes its core
    call ([wasm_step], respectively [wasm_run]) exactly once and first.
    What follows is nothing, or one [wasm_get_current_interrupt] and then
    one invocation of the handler, or these two and then one
    [wasm_answer_interrupt]: the pending interrupt is read before the
    handler runs, the handler runs at most once, and the answer, if any,
    comes last. *)
Theorem handler_call_order (this : Interpreter.Interpreter)
    (w : W) (log : list exec_call) :
  let raw := Interpreter.interpreter this in
  let shape (calls : list exec_call) :=
    calls = []
    ∨ (∃ i, calls = [call_wasm_get_current_interrupt raw; call_onInterrupt i])
    ∨ (∃ i r, calls = [call_wasm_get_current_interrupt raw; call_onInterrupt i;
                       call_wasm_answer_interrupt raw r]) in
  (∃ calls,
     (Interpreter.stepWithInterruptHandler (M := O) this
        (observed_handler handler) (w, log)).2.2
     = log ++ call_wasm_step raw :: calls
     ∧ shape calls)
  ∧ (∃ calls,
       (Interpreter.runWithInterruptHandler (M := O) this
          (observed_handler handler) (w, log)).2.2
       = log ++ call_wasm_run raw :: calls
       ∧ shape calls).
Proof.
  cbn zeta. split.
  - pose proof (stepWithInterruptHandler_observed core handler this w log) as Hrun.
    cbn zeta in Hrun. rewrite Hrun. eexists. split; [reflexivity |].
    apply mediation_shapes.
  - pose proof (runWithInterruptHandler_observed core handler this w log) as Hrun.
    cbn zeta in Hrun. rewrite Hrun. eexists. split; [reflexivity |].
    apply mediation_shapes.
Qed.
End handler_order.

(** ** Interpreter: answering later *)
Section answer_later.
Context {W : Type} {types : InterpreterTypes} (core : ExecApi (State W)).

Local Abbreviation O := (State (W * list exec_call)).
Local Existing Instance observed_exec.

(** X4. Letting the handler decline and calling [answerInterrupt(result)]
    by hand when the step (or the run) reports an interrupt is the same as
    answering from the handler: the same [Step] (or status), the same
    world, the same calls in the same order, whatever else the handler
    does to the world. *)
Theorem answer_later_is_answer_now (this : Interpreter.Interpreter)
    (effect : option Interrupt → W → W) (result : InterruptResult)
    (w : W) (log : list exec_call) :
  step_then_answer (M := O) this
    (observed_handler (λ i w, (None, effect i w))) result (w, log)
  = Interpreter.stepWithInterruptHandler (M := O) this
      (observed_handler (λ i w, (Some result, effect i w))) (w, log)
  ∧ run_then_answer (M := O) this
      (observed_handler (λ i w, (None, effect i w))) result (w, log)
    = Interpreter.runWithInterruptHandler (M := O) this
        (observed_handler (λ i w, (Some result, effect i w))) (w, log).
Proof.
  split.
  - unfold step_then_answer. rewrite State_bind_run.
    pose proof (stepWithInterruptHandler_observed core
                  (λ i w, (None, effect i w)) this w log) as Hlater.
    pose proof (stepWithInterruptHandler_observed core
                  (λ i w, (Some result, effect i w)) this w log) as Hnow.
    cbn zeta in Hlater, Hnow. rewrite Hlater, Hnow. clear Hlater Hnow.
    cbn [fst snd]. unfold mediation.
    destruct (wasm_step (M := State W) (Interpreter.interpreter this) w)
      as [[line status] w1]. cbn [fst snd].
    rewrite State_bind_run.
    destruct (decide (status = InterpreterStatus.Interrupt)) as [_|_]; [| reflexivity].
    destruct (wasm_get_current_interrupt (M := State W) _ w1) as [current w2].
    cbn [fst snd]. unfold Interpreter.answerInterrupt.
    cbn [wasm_answer_interrupt observed_exec observe].
    destruct (wasm_answer_interrupt (M := State W) _ result (effect current w2))
      as [[] w4].
    cbn. by rewrite <- !app_assoc.
  - unfold run_then_answer. rewrite State_bind_run.
    pose proof (runWithInterruptHandler_observed core
                  (λ i w, (None, effect i w)) this w log) as Hlater.
    pose proof (runWithInterruptHandler_observed core
                  (λ i w, (Some result, effect i w)) this w log) as Hnow.
    cbn zeta in Hlater, Hnow. rewrite Hlater, Hnow. clear Hlater Hnow.
    cbn [fst snd]. unfold mediation.
    destruct (wasm_run (M := State W) (Interpreter.interpreter this) w)
      as [status w1]. cbn [fst snd].
    rewrite State_bind_run.
    destruct (decide (status = InterpreterStatus.Interrupt)) as [_|_]; [| reflexivity].
    destruct (wasm_get_current_interrupt (M := State W) _ w1) as [current w2].
    cbn [fst snd]. unfold Interpreter.answerInterrupt.
    cbn [wasm_answer_interrupt observed_exec observe].
    destruct (wasm_answer_interrupt (M := State W) _ result (effect current w2))
      as [[] w4].
    cbn. by rewrite <- !app_assoc.
Qed.
End answer_later.

(** ** S68k: the loop stays within the reported length *)
Section loop_bounds.
Context {errs : ErrorPkg}.

(** X5. The loop of [semanticCheck] asks the core only for indices below
    the length it reports: two error lists of the same length that agree
    at every index below it give the same result, whatever the core would
    return further out; and entered at or past the length, the loop
    returns the array it was given. *)
Theorem semanticCheck_loop_within_bounds
    (errorWrapper errorWrapper' : RawSemanticErrors) (i : nat)
    (errors : list SemanticError.SemanticError) :
  get_length errorWrapper = get_length errorWrapper' →
  (∀ j : nat, (j < get_length errorWrapper)%nat →
     get_error_at_index errorWrapper j = get_error_at_index errorWrapper' j) →
  S68k.semanticCheck_loop errorWrapper i errors
  = S68k.semanticCheck_loop errorWrapper' i errors
  ∧ ((get_length errorWrapper ≤ i)%nat →
     S68k.semanticCheck_loop errorWrapper i errors = errors).
Proof.
  intros Hlen Hsame. rewrite !semanticCheck_loop_seq. split.
  - rewrite <- Hlen. f_equal. apply map_ext_in.
    intros j Hj. apply in_seq in Hj. rewrite Hsame; [done | lia].
  - intros Hpast. replace (get_length errorWrapper - i)%nat with 0%nat by lia.
    cbn. by rewrite app_nil_r.
Qed.
End loop_bounds.

(** Two lists with the same two errors and different fillers. *)
Lemma semanticCheck_loop_within_bounds_witness :
  let a := ("unknown instruction"%string, 1) in
  let b := ("unknown label"%string, 4) in
  S68k.semanticCheck_loop (errs := ToyPadded.errs) ([a; b], ("filler"%string, 0)) 0 []
  = S68k.semanticCheck_loop (errs := ToyPadded.errs) ([a; b], ("other"%string, 9)) 0 [].
Proof.
  cbn zeta.
  refine (proj1 (semanticCheck_loop_within_bounds (errs := ToyPadded.errs)
                   ([("unknown instruction"%string, 1); ("unknown label"%string, 4)],
                    ("filler"%string, 0))
                   ([("unknown instruction"%string, 1); ("unknown label"%string, 4)],
                    ("other"%string, 9))
                   0 [] eq_refl _)).
  intros j Hj. cbn in Hj.
  destruct j as [|[|j]]; [reflexivity | reflexivity | lia].
Defined.

(** ** Cpu: any lengths, any type *)
Section cpu_edges.
Context {pkg : CpuPkg}.

(** X6. Whatever lengths the core reports, [getRegistersValues] has the
    data values at their own indices and the address values right after
    them, and nothing past both; [getRegisterValue] is the long value of
    the core's data register for the type [Data] and the long value of its
    address register for every other type, so any two types other than
    [Data] read the same value. *)
Theorem cpu_values_any_lengths (this : Cpu.Cpu) (register : Z)
    (type type' : RegisterType.t) (i : nat) :
  let dReg := wasm_get_d_regs_value (Cpu.cpu this) in
  let aReg := wasm_get_a_regs_value (Cpu.cpu this) in
  length (Cpu.getRegistersValues this) = (length dReg + length aReg)%nat
  ∧ Cpu.getRegistersValues this !! i
    = (if decide (i < length dReg)%nat then dReg !! i else aReg !! (i - length dReg)%nat)
  ∧ ((length dReg + length aReg ≤ i)%nat → Cpu.getRegistersValues this !! i = None)
  ∧ Cpu.getRegisterValue this register RegisterType.Data
    = wasm_get_long (wasm_get_d_reg (Cpu.cpu this) register)
  ∧ (type ≠ RegisterType.Data →
     Cpu.getRegisterValue this register type
     = wasm_get_long (wasm_get_a_reg (Cpu.cpu this) register))
  ∧ (type ≠ RegisterType.Data → type' ≠ RegisterType.Data →
     Cpu.getRegisterValue this register type
     = Cpu.getRegisterValue this register type').
Proof.
  cbn zeta. rewrite getRegistersValues_app.
  split; [apply length_app |]. split; [| split; [| split; [| split]]].
  - destruct (decide (i < _)%nat).
    + by rewrite lookup_app_l.
    + by rewrite lookup_app_r by lia.
  - intros Hpast. apply lookup_ge_None. rewrite length_app. lia.
  - reflexivity.
  - intros Hne. unfold Cpu.getRegisterValue. by rewrite getRegister_not_Data.
  - intros Hne Hne'. unfold Cpu.getRegisterValue.
    by rewrite !getRegister_not_Data.
Qed.
End cpu_edges.

(** ** build.js: the first failure ends the build *)
Section build.
Import Build.
Context {W E : Type} (node : NodeApi (Node W E)).

Local Abbreviation O := (Node (W * list node_call) E).
Local Existing Instance observed_node.

Lemma Node_bind_run {V A B : Type} (m : Node V E A) (f : A → Node V E B) (v : V) :
  (x ← m; f x) v
  = match m v with
    | (returned a, v') => f a v'
    | (threw e, v') => (threw e, v')
    end.
Proof. reflexivity. Qed.

(** X7. [init] makes its calls in source order: the compiler, the copy of
    [./src/pkg] to [./dist/pkg], then the deletion of [package.json],
    [README.md] and [.gitignore] under [./dist/pkg]. Every call before the
    last one made has returned; the outcome and the world of [init] are
    those of the last call made; [init] returns only after all five; and a
    call that throws is the last one made, so what comes after it in the
    source is not run. *)
Theorem init_stops_at_first_failure (w : W) (log : list node_call) :
  let '(r, (w', log')) := init (M := O) (w, log) in
  ∃ (made : list node_call) (last : node_call) (rest : list node_call) (w0 : W),
    init_calls = made ++ last :: rest
    ∧ log' = log ++ made ++ [last]
    ∧ perform_all node made w = (returned tt, w0)
    ∧ perform node last w0 = (r, w')
    ∧ (r = returned tt → rest = [])
    ∧ (rest ≠ [] → ∃ e, r = threw e).
Proof.
  unfold init. rewrite Node_bind_run.
  cbn [execSync cp unlink observed_node observe_node].
  destruct (execSync (M := Node W E) "tsc" "inherit" w) as [[[]|e] w1] eqn:H1.
  2:{ exists [], (call_execSync "tsc" "inherit"), (tail init_calls), w.
      repeat split; try done. intros _. by exists e. }
  rewrite Node_bind_run. cbn [execSync cp unlink observed_node observe_node].
  destruct (cp (M := Node W E) "./src/pkg" "./dist/pkg" true w1) as [[[]|e] w2] eqn:H2.
  2:{ exists (take 1 init_calls), (call_cp "./src/pkg" "./dist/pkg" true),
        (drop 2 init_calls), w1.
      repeat split; try done.
      - by rewrite <- app_assoc.
      - cbn. rewrite Node_bind_run. by rewrite H1.
      - intros _. by exists e. }
  rewrite Node_bind_run. cbn [execSync cp unlink observed_node observe_node].
  destruct (unlink (M := Node W E) "./dist/pkg/package.json" w2) as [[[]|e] w3] eqn:H3.
  2:{ exists (take 2 init_calls), (call_unlink "./dist/pkg/package.json"),
        (drop 3 init_calls), w2.
      repeat split; try done.
      - by rewrite <- !app_assoc.
      - cbn. rewrite Node_bind_run, H1. rewrite Node_bind_run. by rewrite H2.
      - intros _. by exists e. }
  rewrite Node_bind_run. cbn [execSync cp unlink observed_node observe_node].
  destruct (unlink (M := Node W E) "./dist/pkg/README.md" w3) as [[[]|e] w4] eqn:H4.
  2:{ exists (take 3 init_calls), (call_unlink "./dist/pkg/README.md"),
        (drop 4 init_calls), w3.
      repeat split; try done.
      - by rewrite <- !app_assoc.
      - cbn. rewrite Node_bind_run, H1. rewrite Node_bind_run, H2.
        rewrite Node_bind_run. by rewrite H3.
      - intros _. by exists e. }
  rewrite Node_bind_run. cbn [execSync cp unlink observed_node observe_node].
  assert (Hmade : perform_all node (take 4 init_calls) w = (returned tt, w4)).
  { cbn. rewrite Node_bind_run, H1. rewrite Node_bind_run, H2.
    rewrite Node_bind_run, H3. rewrite Node_bind_run. by rewrite H4. }
  destruct (unlink (M := Node W E) "./dist/pkg/.gitignore" w4) as [[[]|e] w5] eqn:H5;
    cbn -[perform_all take];
    exists (take 4 init_calls), (call_unlink "./dist/pkg/.gitignore"), [], w4;
    rewrite <- !app_assoc; repeat split; done.
Qed.
End build.

(** On the toy Node, when the copy brings no [README.md] the build fails
    there, and [.gitignore] stays in [./dist/pkg]. *)
Example init_leaves_gitignore :
  Build.init (M := Build.Node (list string * list Build.node_call) string)
    (node := Build.observed_node
               (Build.toy_node ["./dist/pkg/package.json"; "./dist/pkg/.gitignore";
                                "./dist/pkg/s68k.js"]%string))
    ([], [])
  = (Build.threw "ENOENT"%string,
     (["./dist/pkg/.gitignore"; "./dist/pkg/s68k.js"]%string,
      take 4 Build.init_calls)).
Proof. by vm_compute. Qed.

Example init_removes_the_three :
  Build.init (M := Build.Node (list string * list Build.node_call) string)
    (node := Build.observed_node
               (Build.toy_node ["./dist/pkg/package.json"; "./dist/pkg/README.md";
                                "./dist/pkg/.gitignore"; "./dist/pkg/s68k.js"]%string))
    ([], [])
  = (Build.returned tt, (["./dist/pkg/s68k.js"]%string, Build.init_calls)).
Proof. by vm_compute. Qed.

(** * The core's objects: analysis and interpreters *)
Section spec_objects.
Import SpecObjects.
Context {Line Program : Type}.
Variable parse : string → list Line.
Variable violations : list Line → Line → list string.
Variable build : list Line → Program.
Variable boot : Program → Z → SpecCore.Machine.

Local Abbreviation C := (Call (Line := Line) (Program := Program)).
Local Abbreviation core := (spec_s68k parse violations build boot).

Lemma Call_bind_run {A B : Type} (m : C A) (f : A → C B) (w : World) :
  (x ← m; f x) w
  = match m w with
    | (returned a, w') => f a w'
    | (threw e, w') => (threw e, w')
    | (diverged, w') => (diverged, w')
    end.
Proof. reflexivity. Qed.

(** Over the list of the specification, the loop of [semanticCheck] wraps
    each error once, in order. *)
Lemma semanticCheck_loop_list (report : list (string * Z)) :
  S68k.semanticCheck_loop (errs := errs) report 0 []
  = map (SemanticError.new (errs := errs)) report.
Proof.
  rewrite semanticCheck_loop_seq. cbn [app get_length get_error_at_index errs].
  rewrite Nat.sub_0_r. apply list_eq. intros i.
  change (map ?f ?l) with (f <$> l). rewrite !list_lookup_fmap.
  destruct (decide (i < length report)%nat) as [Hi|Hi].
  - rewrite lookup_seq_lt by done. cbn.
    destruct (lookup_lt_is_Some_2 report i Hi) as [e He].
    rewrite He. cbn. f_equal. f_equal. rewrite nth_lookup, He. done.
  - assert (Hge : (length report ≤ i)%nat) by lia.
    rewrite (lookup_seq_ge 0 _ i Hge). by rewrite (lookup_ge_None_2 (A := RawSemanticError (ErrorPkg := errs)) report i Hge).
Qed.

Lemma constructor_objects (code : string) (w : World) :
  S68k.constructor (M := C) (api := core) code w
  = (returned (S68k.mk (stypes := stypes) (length (sources w))),
     {| sources := sources w ++ [parse code]; programs := programs w;
        interpreters := interpreters w |}).
Proof. reflexivity. Qed.

Lemma semanticCheck_objects (this : S68k.S68k (stypes := stypes)) (lines : list Line)
    (w : World) :
  sources w !! (S68k._s68k this : nat) = Some lines →
  S68k.semanticCheck (M := C) (api := core) this w
  = (returned (map (SemanticError.new (errs := errs)) (analyse violations lines)), w).
Proof.
  intros Hlive. unfold S68k.semanticCheck. rewrite Call_bind_run.
  cbn [Pkg.wasm_semantic_check spec_s68k]. unfold wasm_semantic_check.
  rewrite Hlive. cbn [mret Call_ret]. by rewrite semanticCheck_loop_list.
Qed.

Lemma static_semanticCheck_objects (code : string) (w : World) :
  S68k.static_semanticCheck (M := C) (api := core) code w
  = (returned (map (SemanticError.new (errs := errs)) (analyse violations (parse code))),
     {| sources := sources w ++ [parse code]; programs := programs w;
        interpreters := interpreters w |}).
Proof.
  unfold S68k.static_semanticCheck. rewrite Call_bind_run, constructor_objects.
  apply semanticCheck_objects. cbn. by apply list_lookup_middle.
Qed.

(** C4. Over the analyzer of the specification, whatever the parser and
    the rule set: the static [semanticCheck] always returns; it is the
    instance [semanticCheck] of a freshly constructed [S68k]; in every
    world it returns the same list, the wrapped errors of the analysed
    source in their order, so two invocations on one source return
    identical lists, the second as the first although it runs in the world
    the first has left, on another object; and it leaves the objects that
    were there as they were. *)
Theorem static_semanticCheck_same_errors (code : string) (w w' : World) :
  let check := S68k.static_semanticCheck (M := C) (api := core) code in
  let errors := map (SemanticError.new (errs := errs)) (analyse violations (parse code)) in
  (∃ (s68k : S68k.S68k) (w1 : World),
     S68k.constructor (M := C) (api := core) code w = (returned s68k, w1)
     ∧ check w = S68k.semanticCheck (M := C) (api := core) s68k w1)
  ∧ (check w).1 = returned errors
  ∧ (check w').1 = (check w).1
  ∧ (check (check w).2).1 = (check w).1
  ∧ (check (check w).2).2 ≠ (check w).2
  ∧ programs (check w).2 = programs w
  ∧ interpreters (check w).2 = interpreters w
  ∧ ∀ (raw : nat) (lines : list Line),
      sources w !! raw = Some lines → sources (check w).2 !! raw = Some lines.
Proof.
  cbn zeta. rewrite !static_semanticCheck_objects. cbn [fst snd sources programs interpreters].
  split; [| split; [| split; [| split; [| split; [| split; [| split]]]]]]; try done.
  - eexists _, _. split; [apply constructor_objects |].
    symmetry. apply semanticCheck_objects. cbn. by apply list_lookup_middle.
  - intros [= Hgrow]. apply (f_equal length) in Hgrow.
    rewrite !length_app in Hgrow. cbn in Hgrow. lia.
  - intros raw lines Hlive. by apply lookup_app_l_Some.
Qed.
(** *** Interpreters from one program *)
Variable execute : SpecCore.Machine → SpecCore.Machine.
Variable complete : Z → SpecCore.Machine → SpecCore.Machine.
Variable fuel : nat.

Lemma createInterpreter_objects_given (this : S68k.S68k (stypes := stypes))
    (program : CompiledProgram.CompiledProgram (stypes := stypes))
    (memorySize : option Z) (lines : list Line) (compiled : Program) (w : World) :
  sources w !! (S68k._s68k this : nat) = Some lines →
  programs w !! (CompiledProgram.getCompiledProgram program : nat) = Some compiled →
  S68k.createInterpreter (M := C) (api := core) this memorySize (Some program) w
  = (returned (Interpreter.new (types := types) (length (interpreters w))),
     {| sources := sources w; programs := programs w;
        interpreters := interpreters w ++ [boot compiled (default 16777215 memorySize)] |}).
Proof.
  intros Hsource Hprogram. unfold S68k.createInterpreter. cbn zeta.
  rewrite Call_bind_run. cbn [Pkg.wasm_create_interpreter spec_s68k].
  unfold wasm_create_interpreter. by rewrite Hsource, Hprogram.
Qed.

Lemma createInterpreter_objects_own (this : S68k.S68k (stypes := stypes))
    (memorySize : option Z) (lines : list Line) (w : World) :
  sources w !! (S68k._s68k this : nat) = Some lines →
  S68k.createInterpreter (M := C) (api := core) this memorySize None w
  = (returned (Interpreter.new (types := types) (length (interpreters w))),
     {| sources := sources w; programs := programs w ++ [build lines];
        interpreters := interpreters w
                        ++ [boot (build lines) (default 16777215 memorySize)] |}).
Proof.
  intros Hsource. unfold S68k.createInterpreter, S68k.compile. cbn zeta.
  rewrite !Call_bind_run. cbn [Pkg.wasm_compile spec_s68k].
  unfold wasm_compile at 1. rewrite Hsource. cbn [mret Call_ret].
  rewrite Call_bind_run. cbn [Pkg.wasm_create_interpreter spec_s68k].
  unfold wasm_create_interpreter. cbn [sources programs interpreters].
  rewrite Hsource.
  unfold CompiledProgram.getCompiledProgram. cbn [CompiledProgram.program].
  by rewrite (list_lookup_middle (programs w) [] (build lines) _ eq_refl).
Qed.

Lemma createInterpreter_times_objects (n : nat) (this : S68k.S68k (stypes := stypes))
    (program : CompiledProgram.CompiledProgram (stypes := stypes))
    (memorySize : option Z) (lines : list Line) (compiled : Program) (w : World) :
  sources w !! (S68k._s68k this : nat) = Some lines →
  programs w !! (CompiledProgram.getCompiledProgram program : nat) = Some compiled →
  createInterpreter_times (M := C) (api := core) n this memorySize program w
  = (returned (map (Interpreter.new (types := types)) (seq (length (interpreters w)) n)),
     {| sources := sources w; programs := programs w;
        interpreters := interpreters w
                        ++ replicate n (boot compiled (default 16777215 memorySize)) |}).
Proof.
  revert w. induction n as [|n IH]; intros w Hsource Hprogram.
  - cbn. rewrite app_nil_r. by destruct w.
  - cbn [createInterpreter_times]. rewrite Call_bind_run.
    rewrite (createInterpreter_objects_given this program memorySize lines compiled w)
      by done.
    rewrite Call_bind_run, IH by done.
    cbn [mret Call_ret sources programs interpreters seq map replicate].
    rewrite length_app, Nat.add_1_r, <- app_assoc. reflexivity.
Qed.

(** A call made on one interpreter leaves every other interpreter, every
    program and every source as it was. *)
Lemma on_interpreter_others {A : Type} (raw other : nat) (c : SpecCore.Exec A)
    (w : World (Line := Line) (Program := Program)) :
  raw ≠ other →
  interpreters (on_interpreter raw c w).2 !! other = interpreters w !! other
  ∧ programs (on_interpreter raw c w).2 = programs w
  ∧ sources (on_interpreter raw c w).2 = sources w.
Proof.
  intros Hne. unfold on_interpreter.
  destruct (interpreters w !! raw) as [m|]; [| done].
  destruct (c m) as [a m'| |]; [| done | done].
  cbn. split; [| done]. by apply list_lookup_insert_ne.
Qed.

(** A call made on one interpreter is the call on its machine alone. *)
Lemma on_interpreter_own {A : Type} (raw : nat) (c : SpecCore.Exec A)
    (w : World (Line := Line) (Program := Program))
    (m m' : SpecCore.Machine) (a : A) :
  interpreters w !! raw = Some m →
  c m = SpecCore.Returned a m' →
  (on_interpreter raw c w).1 = returned a
  ∧ interpreters (on_interpreter raw c w).2 !! raw = Some m'.
Proof.
  intros Hm Hc. unfold on_interpreter. rewrite Hm, Hc. cbn. split; [done |].
  apply list_lookup_insert_eq. by eapply lookup_lt_Some.
Qed.
(** C7. Over any core: given a program, [createInterpreter] makes one core
    call, [wasm_create_interpreter] on exactly that program with the memory
    size, and no [wasm_compile] call; given none, it calls [wasm_compile]
    first and creates the interpreter from its result. Over the objects of
    the specification, for a live [S68k] and a live compiled program:
    given none, [createInterpreter] adds one program object, the compiled
    source, and boots the interpreter from it; given the program, [n]
    creations in a row all return, the handles they return are [n]
    different new ones, every one with a machine of its own booted from
    that program, while the programs and the sources stay as they were
    (nothing is compiled, the program is not used up); and then a step, or
    a register write, on one of these interpreters acts on its machine and
    leaves the machine of every other as it was. *)
Theorem one_program_many_interpreters :
  (∀ (V : Type) (T : InterpreterTypes) (R : ErrorPkg) (Y : S68kTypes)
     (anycore : S68kApi (State V)) (this : S68k.S68k) (memorySize : option Z)
     (program : CompiledProgram.CompiledProgram) (w : V) (log : list s68k_call),
     let raw := S68k._s68k this in
     let size := default 16777215 memorySize in
     let given := CompiledProgram.getCompiledProgram program in
     (let '(interpreter, (w', log')) :=
        S68k.createInterpreter (M := State (V * list s68k_call))
          (api := observed_s68k anycore) this memorySize (Some program) (w, log) in
      Pkg.wasm_create_interpreter raw given size w = (Interpreter.interpreter interpreter, w')
      ∧ log' = log ++ [call_wasm_create_interpreter raw given size])
     ∧ (let '(compiled, w1) := Pkg.wasm_compile raw w in
        let '(interpreter, (w', log')) :=
          S68k.createInterpreter (M := State (V * list s68k_call))
            (api := observed_s68k anycore) this memorySize None (w, log) in
        Pkg.wasm_create_interpreter raw compiled size w1
        = (Interpreter.interpreter interpreter, w')
        ∧ log' = log ++ [call_wasm_compile raw;
                         call_wasm_create_interpreter raw compiled size]))
  ∧ (∀ (this : S68k.S68k (stypes := stypes))
       (program : CompiledProgram.CompiledProgram (stypes := stypes))
       (memorySize : option Z) (lines : list Line) (compiled : Program)
       (n : nat) (w : World),
       sources w !! (S68k._s68k this : nat) = Some lines →
       programs w !! (CompiledProgram.getCompiledProgram program : nat) = Some compiled →
       let size := default 16777215 memorySize in
       let first := length (interpreters w) in
       S68k.createInterpreter (M := C) (api := core) this memorySize None w
       = (returned (Interpreter.new (types := types) first),
          {| sources := sources w; programs := programs w ++ [build lines];
             interpreters := interpreters w ++ [boot (build lines) size] |})
       ∧ ∃ w' : World,
           createInterpreter_times (M := C) (api := core) n this memorySize program w
           = (returned (map (Interpreter.new (types := types)) (seq first n)), w')
           ∧ NoDup (seq first n)
           ∧ (∀ i : nat, (i < n)%nat →
                interpreters w !! (first + i)%nat = None
                ∧ interpreters w' !! (first + i)%nat = Some (boot compiled size))
           ∧ programs w' = programs w
           ∧ sources w' = sources w
           ∧ (∀ raw m, interpreters w !! raw = Some m → interpreters w' !! raw = Some m)
           ∧ ∀ i j : nat, (i < n)%nat → (j < n)%nat → i ≠ j →
               let one := Interpreter.new (types := types) (first + i)%nat in
               let stepped :=
                 Interpreter.step (M := C) (api := spec_exec execute complete fuel) one w' in
               (∀ step m',
                  SpecCore.wasm_step execute tt (boot compiled size)
                  = SpecCore.Returned step m' →
                  stepped.1 = returned step
                  ∧ interpreters stepped.2 !! (first + i)%nat = Some m')
               ∧ interpreters stepped.2 !! (first + j)%nat = Some (boot compiled size)
               ∧ ∀ register value width,
                   interpreters
                     (Interpreter.setRegisterValue (M := C) (api := spec_registers)
                        one register value width w').2 !! (first + j)%nat
                   = Some (boot compiled size)).
Proof.
  split.
  - intros V T R Y anycore this memorySize program w log. cbn zeta.
    pose proof (createInterpreter_calls anycore this memorySize program 0 w log) as Hc.
    cbn zeta in Hc. destruct Hc as (Hgiven & Hown & _). by split.
  - intros this program memorySize lines compiled n w Hsource Hprogram. cbn zeta.
    split; [by apply createInterpreter_objects_own |].
    eexists. split; [by eapply createInterpreter_times_objects |].
    cbn [sources programs interpreters].
    assert (Hnew : ∀ i : nat, (i < n)%nat →
              (interpreters w ++ replicate n (boot compiled (default 16777215 memorySize)))
                !! (length (interpreters w) + i)%nat
              = Some (boot compiled (default 16777215 memorySize))).
    { intros i Hi. rewrite lookup_app_r by lia.
      apply lookup_replicate_2. lia. }
    split; [apply NoDup_seq |]. split; [| split; [done | split; [done | split]]].
    + intros i Hi. split; [apply lookup_ge_None_2; lia | by apply Hnew].
    + intros raw m Hm. by apply lookup_app_l_Some.
    + intros i j Hi Hj Hne.
      assert (Hother : (length (interpreters w) + i)%nat
                       ≠ (length (interpreters w) + j)%nat) by lia.
      unfold Interpreter.step, Interpreter.setRegisterValue.
      cbn [Interpreter.interpreter Pkg.wasm_step spec_exec
           Pkg.wasm_set_register_value spec_registers].
      split; [| split].
      * intros step m' Hstep.
        eapply on_interpreter_own; [| exact Hstep]. cbn. by apply Hnew.
      * etransitivity; [exact (proj1 (on_interpreter_others _ _ _ _ Hother)) |].
        cbn. by apply Hnew.
      * intros register value width.
        etransitivity; [exact (proj1 (on_interpreter_others _ _ _ _ Hother)) |].
        cbn. by apply Hnew.
Qed.
End spec_objects.

(** Two checks of one source in a row: the second runs on another object,
    in a world with one source more, and returns the same two errors. *)
Example static_semanticCheck_twice :
  let check := S68k.static_semanticCheck (M := SpecObjects.Call) (api := ToyObjects.core)
                 "nxny" in
  let errors :=
    [SemanticError.new (errs := SpecObjects.errs) ("unknown instruction"%string, 1);
     SemanticError.new (errs := SpecObjects.errs) ("unknown instruction"%string, 3)] in
  (check ToyObjects.compiled_world).1 = SpecObjects.returned errors
  ∧ (check (check ToyObjects.compiled_world).2).1 = SpecObjects.returned errors
  ∧ length (SpecObjects.sources (check (check ToyObjects.compiled_world).2).2) = 3%nat.
Proof. by vm_compute. Qed.

(** Two interpreters from the one compiled program of the toy world: two
    handles, two machines; a step on the first leaves the second as
    booted. *)
Lemma one_program_many_interpreters_witness :
  let this := S68k.mk (stypes := SpecObjects.stypes) 0%nat in
  let program := CompiledProgram.new (stypes := SpecObjects.stypes) 0%nat in
  let first := Interpreter.new (types := SpecObjects.types) 0%nat in
  let second := Interpreter.new (types := SpecObjects.types) 1%nat in
  ∃ w' : SpecObjects.World,
    createInterpreter_times (M := SpecObjects.Call) (api := ToyObjects.core)
      2 this None program ToyObjects.compiled_world
    = (SpecObjects.returned [first; second], w')
    ∧ SpecObjects.programs w' = SpecObjects.programs ToyObjects.compiled_world
    ∧ SpecObjects.interpreters
        (Interpreter.step (M := SpecObjects.Call)
           (api := SpecObjects.spec_exec Toy.countdown (λ _ m, m) 10) first w').2
      !! 1%nat
      = Some Toy.machine.
Proof.
  cbn zeta.
  destruct (proj2 (one_program_many_interpreters ToyObjects.parse ToyObjects.violations
                     ToyObjects.build ToyObjects.boot Toy.countdown (λ _ m, m) 10)
              (S68k.mk (stypes := SpecObjects.stypes) 0%nat)
              (CompiledProgram.new (stypes := SpecObjects.stypes) 0%nat)
              None (ToyObjects.parse "nn") (ToyObjects.build (ToyObjects.parse "nn"))
              2%nat ToyObjects.compiled_world eq_refl eq_refl)
    as (_ & w' & Htimes & _ & _ & Hprograms & _ & _ & Hapart).
  exists w'. split; [exact Htimes |]. split; [exact Hprograms |].
  exact (proj1 (proj2 (Hapart 0%nat 1%nat ltac:(lia) ltac:(lia) ltac:(lia)))).
Defined.
